(** * constructor-form: the form builder of [src/App.tsx]

    A shallow embedding of the field-type registry, of the component state
    held by the four [useState] hooks of [App], and of the event handlers
    [addField], [updateField], [updateLabel], [removeField], [saveForm] and
    [updateType], followed by the properties of the specification. *)

From Stdlib Require Import List ZArith NArith Bool Lia String Ascii.
Import ListNotations.

Local Open Scope N_scope.

(** ** JavaScript strings

    A JavaScript string is a sequence of UTF-16 code units; [String.length],
    [String.prototype.trim] and the [Number] conversion all work on that
    sequence. *)

Definition jsstring := list N.

(** Literals of the source file are written as UTF-8 text and decoded to
    code units; an ill-formed sequence decodes to U+FFFD. *)

Definition cont (a : ascii) : option N :=
  let b := N_of_ascii a in
  if (128 <=? b) && (b <? 192) then Some (b - 128) else None.

Definition surrogates (cp : N) : list N :=
  if cp <? 65536 then [cp]
  else [55296 + N.shiftr (cp - 65536) 10; 56320 + N.land (cp - 65536) 1023].

Fixpoint utf16 (s : string) : jsstring :=
  match s with
  | EmptyString => []
  | String a r =>
    let b := N_of_ascii a in
    if b <? 128 then b :: utf16 r
    else if (192 <=? b) && (b <? 224) then
      match r with
      | String a1 r1 =>
        match cont a1 with
        | Some c1 => ((b - 192) * 64 + c1) :: utf16 r1
        | None => 65533 :: utf16 r
        end
      | _ => 65533 :: utf16 r
      end
    else if (224 <=? b) && (b <? 240) then
      match r with
      | String a1 (String a2 r2) =>
        match cont a1, cont a2 with
        | Some c1, Some c2 => ((b - 224) * 4096 + c1 * 64 + c2) :: utf16 r2
        | _, _ => 65533 :: utf16 r
        end
      | _ => 65533 :: utf16 r
      end
    else if (240 <=? b) && (b <? 248) then
      match r with
      | String a1 (String a2 (String a3 r3)) =>
        match cont a1, cont a2, cont a3 with
        | Some c1, Some c2, Some c3 =>
          surrogates ((b - 240) * 262144 + c1 * 4096 + c2 * 64 + c3) ++ utf16 r3
        | _, _, _ => 65533 :: utf16 r
        end
      | _ => 65533 :: utf16 r
      end
    else 65533 :: utf16 r
  end.

Fixpoint jsstring_eqb (s t : jsstring) : bool :=
  match s, t with
  | [], [] => true
  | a :: s', b :: t' => (a =? b) && jsstring_eqb s' t'
  | _, _ => false
  end.

(** [ToBoolean] on a string: only the empty string is falsy. *)
Definition truthy (s : jsstring) : bool :=
  match s with [] => false | _ => true end.

(** [ToBoolean] on a [string | null]. *)
Definition truthy_opt (o : option jsstring) : bool :=
  match o with Some s => truthy s | None => false end.

(** ECMAScript [WhiteSpace] and [LineTerminator] code points, the set
    stripped by [trim] and allowed around a [StringNumericLiteral]. *)
Definition isWhiteSpace (c : N) : bool :=
  (c =? 9) || (c =? 11) || (c =? 12) || (c =? 32) || (c =? 160)
  || (c =? 5760) || ((8192 <=? c) && (c <=? 8202)) || (c =? 8239)
  || (c =? 8287) || (c =? 12288) || (c =? 65279).

Definition isLineTerminator (c : N) : bool :=
  (c =? 10) || (c =? 13) || (c =? 8232) || (c =? 8233).

Definition isStrWhiteSpaceChar (c : N) : bool :=
  isWhiteSpace c || isLineTerminator c.

Fixpoint trimStart (s : jsstring) : jsstring :=
  match s with
  | c :: r => if isStrWhiteSpaceChar c then trimStart r else s
  | [] => []
  end.

Definition trimEnd (s : jsstring) : jsstring := rev (trimStart (rev s)).

(** [String.prototype.trim]. *)
Definition trim (s : jsstring) : jsstring := trimEnd (trimStart s).

(** [String.prototype.includes]. *)
Fixpoint startsWith (p s : jsstring) : bool :=
  match p, s with
  | [], _ => true
  | a :: p', b :: s' => (a =? b) && startsWith p' s'
  | _ :: _, [] => false
  end.

Fixpoint includes (s p : jsstring) : bool :=
  startsWith p s || match s with [] => false | _ :: s' => includes s' p end.

(** ** [Number(value)] on a string

    [isNaN(Number(s))] holds exactly when [s] is not a [StringNumericLiteral]
    (ECMAScript, StringToNumber): the numeric value of a literal that parses
    is never NaN, so only the recogniser is needed. *)

Definition isDecimalDigit (c : N) : bool := (48 <=? c) && (c <=? 57).
Definition isBinaryDigit (c : N) : bool := (c =? 48) || (c =? 49).
Definition isOctalDigit (c : N) : bool := (48 <=? c) && (c <=? 55).
Definition isHexDigit (c : N) : bool :=
  isDecimalDigit c || ((97 <=? c) && (c <=? 102)) || ((65 <=? c) && (c <=? 70)).

Definition isSign (c : N) : bool := (c =? 43) || (c =? 45).
Definition isExponentIndicator (c : N) : bool := (c =? 101) || (c =? 69).
Definition isDot (c : N) : bool := c =? 46.

Fixpoint dropWhile (p : N -> bool) (s : jsstring) : jsstring :=
  match s with
  | c :: r => if p c then dropWhile p r else s
  | [] => []
  end.

(** One or more characters of class [p]; the rest of the input. *)
Definition digits1 (p : N -> bool) (s : jsstring) : option jsstring :=
  match s with
  | c :: r => if p c then Some (dropWhile p r) else None
  | [] => None
  end.

Definition isNil (s : jsstring) : bool :=
  match s with [] => true | _ => false end.

Definition parseSignedInteger (s : jsstring) : option jsstring :=
  match s with
  | c :: r => if isSign c then digits1 isDecimalDigit r
              else digits1 isDecimalDigit s
  | [] => None
  end.

(** The optional [ExponentPart]: consumed when present, else nothing is. *)
Definition skipExponentPart (s : jsstring) : jsstring :=
  match s with
  | c :: r =>
    if isExponentIndicator c then
      match parseSignedInteger r with Some r' => r' | None => s end
    else s
  | [] => []
  end.

Definition isStrUnsignedDecimalLiteral (s : jsstring) : bool :=
  if jsstring_eqb s (utf16 "Infinity") then true
  else
    match s with
    | c :: r =>
      if isDot c then
        match digits1 isDecimalDigit r with
        | Some r' => isNil (skipExponentPart r')
        | None => false
        end
      else
        match digits1 isDecimalDigit s with
        | Some (d :: r') =>
          if isDot d
          then isNil (skipExponentPart (dropWhile isDecimalDigit r'))
          else isNil (skipExponentPart (d :: r'))
        | Some [] => true
        | None => false
        end
    | [] => false
    end.

Definition isStrDecimalLiteral (s : jsstring) : bool :=
  match s with
  | c :: r => if isSign c then isStrUnsignedDecimalLiteral r
              else isStrUnsignedDecimalLiteral s
  | [] => false
  end.

Definition allDigits1 (p : N -> bool) (s : jsstring) : bool :=
  match digits1 p s with Some r => isNil r | None => false end.

Definition isNonDecimalIntegerLiteral (s : jsstring) : bool :=
  match s with
  | z :: x :: r =>
    (z =? 48) &&
    (if (x =? 98) || (x =? 66) then allDigits1 isBinaryDigit r
     else if (x =? 111) || (x =? 79) then allDigits1 isOctalDigit r
     else if (x =? 120) || (x =? 88) then allDigits1 isHexDigit r
     else false)
  | _ => false
  end.

Definition isStrNumericLiteral (s : jsstring) : bool :=
  isStrDecimalLiteral s || isNonDecimalIntegerLiteral s.

(** [StringNumericLiteral]: optional white space, or a numeric literal
    with optional white space on both sides. *)
Definition isStringNumericLiteral (s : jsstring) : bool :=
  match trim s with
  | [] => true
  | t => isStrNumericLiteral t
  end.

(** [isNaN(Number(s))]. *)
Definition isNaN_Number (s : jsstring) : bool := negb (isStringNumericLiteral s).

(** ** Completions

    Evaluating [fieldTypes[t].validate] or [.render] for a [t] that is not a
    key of the registry reads a property of [undefined] (or calls one that
    is not a function, for the names inherited from [Object.prototype]): a
    [TypeError] is thrown. *)

Inductive jserror := TypeError.

Inductive completion (A : Type) : Type :=
| Normal (a : A)
| Throw (e : jserror).
Arguments Normal {A} a.
Arguments Throw {A} e.

Definition bindC {A B} (c : completion A) (k : A -> completion B) : completion B :=
  match c with
  | Normal a => k a
  | Throw e => Throw e
  end.

Notation "x <- c ;; k" := (bindC c (fun x => k))
  (at level 61, c at next level, right associativity).

(** [Array.prototype.map] with a callback that may throw: elements are
    visited from left to right and the first exception escapes. *)
Fixpoint mapC {A B} (f : A -> completion B) (l : list A) : completion (list B) :=
  match l with
  | [] => Normal []
  | a :: r => b <- f a ;; bs <- mapC f r ;; Normal (b :: bs)
  end.

(** ** Data model *)

(** What a descriptor's [render] produces, without the change callback
    (every control reports its new value to [updateField id "value"]). *)
Inductive Control :=
| InputText (value : jsstring)
| InputNumber (value : jsstring)
| Select (value : jsstring) (options : list (jsstring * jsstring)).

Module FieldConfig.
Record t := mk {
  label : jsstring;
  render : jsstring -> Control;
  validate : jsstring -> option jsstring
}.
End FieldConfig.
Abbreviation FieldConfig := FieldConfig.t.

Module Field.
Record t := mk {
  id : Z;
  label : jsstring;
  type : jsstring;
  value : jsstring;
  error : option jsstring
}.
End Field.
Abbreviation Field := Field.t.

(** The keys [updateField] accepts: [keyof Omit<Field, "id" | "type">]. *)
Inductive FieldKey := KLabel | KValue | KError.

(** ** The field type registry *)

Definition msgRequired : jsstring := utf16 "Обязательное поле".
Definition msgNumber : jsstring := utf16 "Значение должно быть числом".

Definition length_js (s : jsstring) : N := N.of_nat (List.length s).

(** [ToBoolean] on a number, for [!value.length]. *)
Definition truthyN (n : N) : bool := negb (n =? 0).

Definition validate_text (value : jsstring) : option jsstring :=
  if negb (truthyN (length_js value)) then Some msgRequired
  else None.

Definition validate_number (value : jsstring) : option jsstring :=
  if negb (truthyN (length_js value)) then Some msgRequired
  else if truthy value && isNaN_Number value then Some msgNumber
  else None.

Definition validate_select (value : jsstring) : option jsstring :=
  if negb (truthyN (length_js value)) then Some msgRequired
  else None.

Definition selectOptions : list (jsstring * jsstring) :=
  [ ([], utf16 "Выберите");
    (utf16 "Опция 1", utf16 "Опция 1");
    (utf16 "Опция 2", utf16 "Опция 2");
    (utf16 "Опция 3", utf16 "Опция 3") ].

Definition tagText : jsstring := utf16 "text".
Definition tagNumber : jsstring := utf16 "number".
Definition tagSelect : jsstring := utf16 "select".

(** The object literal, as its own enumerable properties in insertion
    order (the order of [Object.entries] and [Object.keys]). *)
Definition fieldTypes : list (jsstring * FieldConfig) :=
  [ (tagText,
     FieldConfig.mk (utf16 "Строка") InputText validate_text);
    (tagNumber,
     FieldConfig.mk (utf16 "Числа") InputNumber validate_number);
    (tagSelect,
     FieldConfig.mk (utf16 "Список")
       (fun value => Select value selectOptions) validate_select) ].

Fixpoint getProp {A} (o : list (jsstring * A)) (k : jsstring) : option A :=
  match o with
  | [] => None
  | (k', a) :: r => if jsstring_eqb k' k then Some a else getProp r k
  end.

Definition keys {A} (o : list (jsstring * A)) : list jsstring := map fst o.

(** A registered tag: one of the three members of the [FieldType] union. *)
Definition registered (t : jsstring) : bool :=
  match getProp fieldTypes t with Some _ => true | None => false end.

(** [fieldTypes[t].validate(v)]. *)
Definition callValidate (t v : jsstring) : completion (option jsstring) :=
  match getProp fieldTypes t with
  | Some cfg => Normal (FieldConfig.validate cfg v)
  | None => Throw TypeError
  end.

(** [fieldTypes[t].render(v, onChange)]. *)
Definition callRender (t v : jsstring) : completion Control :=
  match getProp fieldTypes t with
  | Some cfg => Normal (FieldConfig.render cfg v)
  | None => Throw TypeError
  end.

(** ** Component state: the four [useState] cells of [App] *)

Module App.
Record state := mk {
  fields : list Field;
  newFieldLabel : jsstring;
  newFieldType : jsstring;
  message : jsstring
}.
End App.
Abbreviation AppState := App.state.

Definition initialState : AppState := App.mk [] [] tagText [].

(** A state setter call queues an update; React applies the queue, in
    order, once the handler has returned, and renders the result once.
    [setFields] takes either the next value or an updater of the previous
    one. *)
Inductive Update :=
| setFields (updater : list Field -> completion (list Field))
| setNewFieldLabel (s : jsstring)
| setNewFieldType (s : jsstring)
| setMessage (s : jsstring).

Definition applyUpdate (u : Update) (st : AppState) : completion AppState :=
  match u with
  | setFields updater =>
    fs <- updater (App.fields st) ;;
    Normal (App.mk fs (App.newFieldLabel st) (App.newFieldType st) (App.message st))
  | setNewFieldLabel s =>
    Normal (App.mk (App.fields st) s (App.newFieldType st) (App.message st))
  | setNewFieldType s =>
    Normal (App.mk (App.fields st) (App.newFieldLabel st) s (App.message st))
  | setMessage s =>
    Normal (App.mk (App.fields st) (App.newFieldLabel st) (App.newFieldType st) s)
  end.

Fixpoint flush (us : list Update) (st : AppState) : completion AppState :=
  match us with
  | [] => Normal st
  | u :: r => st' <- applyUpdate u st ;; flush r st'
  end.

(** What running a handler on the rendered state does: the updates it
    queued, the [alert] and [prompt] dialogs it opened, and whether it
    returned or threw. *)
Record Outcome := mkOutcome {
  queued : list Update;
  alerts : list jsstring;
  prompts : list (jsstring * option jsstring);
  result : completion unit
}.

Definition returns (us : list Update) : Outcome := mkOutcome us [] [] (Normal tt).

(** ** Event handlers *)

Definition msgNoLabel : jsstring := utf16 "Введите название поля".
Definition msgRename : jsstring := utf16 "Новое имя поля".
Definition msgInvalid : jsstring := utf16 "Форма заполнена некорректно".
Definition msgSaved : jsstring := utf16 "Форма заполнена успешно!".

(** [addField]; [now] is the reading of [Date.now()]. The label and type
    are those of the render the handler closes over. *)
Definition addField (now : Z) (st : AppState) : Outcome :=
  if negb (truthy (trim (App.newFieldLabel st))) then
    mkOutcome [] [msgNoLabel] [] (Normal tt)
  else
    returns
      [ setFields (fun prev =>
          Normal (prev ++ [Field.mk now (App.newFieldLabel st)
                                    (App.newFieldType st) [] None]));
        setNewFieldLabel [] ].

(** [{ ...field, [key]: value }]. *)
Definition setKey (key : FieldKey) (value : jsstring) (field : Field) : Field :=
  match key with
  | KLabel => Field.mk (Field.id field) value (Field.type field)
                       (Field.value field) (Field.error field)
  | KValue => Field.mk (Field.id field) (Field.label field) (Field.type field)
                       value (Field.error field)
  | KError => Field.mk (Field.id field) (Field.label field) (Field.type field)
                       (Field.value field) (Some value)
  end.

Definition setError (err : option jsstring) (field : Field) : Field :=
  Field.mk (Field.id field) (Field.label field) (Field.type field)
           (Field.value field) err.

(** The callback of [prev.map] in [updateField]. *)
Definition updateOne (id : Z) (key : FieldKey) (value : jsstring)
    (field : Field) : completion Field :=
  if (Field.id field =? id)%Z then
    match key with
    | KValue =>
      err <- callValidate (Field.type field) value ;;
      Normal (setError err (setKey key value field))
    | _ => Normal (setKey key value field)
    end
  else Normal field.

Definition updateField (id : Z) (key : FieldKey) (value : jsstring) : Outcome :=
  returns [ setFields (mapC (updateOne id key value)) ].

(** [fields.find((field) => field.id === id)?.label]. *)
Definition findLabel (id : Z) (fs : list Field) : option jsstring :=
  option_map Field.label (find (fun field => (Field.id field =? id)%Z) fs).

(** [updateLabel]; [answer] is what [prompt] returns: the text entered, or
    [null] when the dialog is cancelled. *)
Definition updateLabel (id : Z) (answer : option jsstring) (st : AppState) : Outcome :=
  let asked := (msgRename, findLabel id (App.fields st)) in
  match answer with
  | Some newLabel =>
    if truthy newLabel then
      mkOutcome (queued (updateField id KLabel newLabel)) [] [asked] (Normal tt)
    else mkOutcome [] [] [asked] (Normal tt)
  | None => mkOutcome [] [] [asked] (Normal tt)
  end.

(** The callback of [prev.filter] in [removeField]: [field.id !== id]. *)
Definition keeps (id : Z) (field : Field) : bool := negb (Field.id field =? id)%Z.

Definition removeField (id : Z) : Outcome :=
  returns [ setFields (fun prev => Normal (filter (keeps id) prev)) ].

(** The loop of [saveForm]: the [map] callback validates one record and
    raises the [hasError] flag it closes over. *)
Fixpoint saveLoop (fs : list Field) (hasError : bool)
    : completion (list Field * bool) :=
  match fs with
  | [] => Normal ([], hasError)
  | field :: rest =>
    err <- callValidate (Field.type field) (Field.value field) ;;
    r <- saveLoop rest (if truthy_opt err then true else hasError) ;;
    Normal (setError err field :: fst r, snd r)
  end.

Definition saveForm (st : AppState) : Outcome :=
  match saveLoop (App.fields st) false with
  | Normal (updated, hasError) =>
    returns
      [ setFields (fun _ => Normal updated);
        setMessage (if hasError then msgInvalid else msgSaved) ]
  | Throw e => mkOutcome [] [] [] (Throw e)
  end.

(** [updateType]; [v] is [e.target.value], cast to [FieldType] unchecked. *)
Definition updateType (v : jsstring) (id : Z) : Outcome :=
  returns [ setFields (fun prev =>
    Normal (map (fun field =>
      if (Field.id field =? id)%Z then
        Field.mk (Field.id field) (Field.label field) v [] (Field.error field)
      else field) prev)) ].

(** ** Rendering *)

Inductive Color := Red | Green.

Record FieldRow := mkRow {
  rowKey : Z;
  rowLabel : jsstring;
  rowControl : Control;
  rowType : jsstring;
  rowTypeOptions : list jsstring;
  rowError : option jsstring
}.

Record View := mkView {
  newTypeOptions : list jsstring;
  rows : list FieldRow;
  statusLine : option (jsstring * Color)
}.

(** The options of the per-field type selector: the empty placeholder,
    then [Object.keys(fieldTypes)]. *)
Definition typeOptions : list jsstring := [] :: keys fieldTypes.

Definition renderField (field : Field) : completion FieldRow :=
  control <- callRender (Field.type field) (Field.value field) ;;
  Normal (mkRow (Field.id field) (Field.label field) control
                (Field.type field) typeOptions
                (if truthy_opt (Field.error field) then Field.error field else None)).

Definition render (st : AppState) : completion View :=
  rs <- mapC renderField (App.fields st) ;;
  Normal (mkView (keys fieldTypes) rs
    (if truthy (App.message st) then
       Some (App.message st,
             if includes (App.message st) (utf16 "некорректно") then Red else Green)
     else None)).

(** ** Events of a session *)

Inductive Event :=
| TypeLabel (s : jsstring)
| PickNewType (v : jsstring)
| ClickAdd (now : Z)
| EditValue (id : Z) (v : jsstring)
| ClickRename (id : Z) (answer : option jsstring)
| PickType (id : Z) (v : jsstring)
| ClickRemove (id : Z)
| ClickSave.

Definition dispatch (ev : Event) (st : AppState) : Outcome :=
  match ev with
  | TypeLabel s => returns [setNewFieldLabel s]
  | PickNewType v => returns [setNewFieldType v]
  | ClickAdd now => addField now st
  | EditValue id v => updateField id KValue v
  | ClickRename id answer => updateLabel id answer st
  | PickType id v => updateType v id
  | ClickRemove id => removeField id
  | ClickSave => saveForm st
  end.

(** The state after an event: the handler's queue applied to the state it
    was rendered from. *)
Definition step (ev : Event) (st : AppState) : completion AppState :=
  flush (queued (dispatch ev st)) st.

(** An event the page can deliver: selectors only report one of their
    options. *)
Definition offered (ev : Event) : bool :=
  match ev with
  | PickNewType v => existsb (jsstring_eqb v) (keys fieldTypes)
  | PickType _ v => existsb (jsstring_eqb v) typeOptions
  | _ => true
  end.

(** The page is on screen: the last render returned. A render that throws
    unmounts the component, after which no event is delivered. *)
Definition mounted (st : AppState) : bool :=
  match render st with Normal _ => true | Throw _ => false end.

(** The states a session can put in the [useState] cells. *)
Inductive reachable : AppState -> Prop :=
| reach_init : reachable initialState
| reach_step ev st st' :
    reachable st -> mounted st = true -> offered ev = true ->
    step ev st = Normal st' ->
    reachable st'.

Definition ids (st : AppState) : list Z := map Field.id (App.fields st).

(** Every type tag held by the state is registered: the draft type and the
    type of each record. *)
Definition typesRegistered (st : AppState) : Prop :=
  registered (App.newFieldType st) = true /\
  Forall (fun t => registered t = true) (map Field.type (App.fields st)).

(** The errors the validators of the registry can return. *)
Definition knownError (e : option jsstring) : Prop :=
  e = None \/ e = Some msgRequired \/ e = Some msgNumber.

(** A type tag a record can hold: a registered one, or the value of the
    placeholder option. *)
Definition possibleType (t : jsstring) : Prop :=
  registered t = true \/ t = [].

(** What one event may do to the sequence of ids: an add keeps it or
    appends the reading of the clock, a remove drops the occurrences of its
    id, every other event keeps it. *)
Definition idsAfter (ev : Event) (before after : list Z) : Prop :=
  match ev with
  | ClickAdd now => after = before \/ after = before ++ [now]
  | ClickRemove id => after = filter (fun i => negb (i =? id)%Z) before
  | _ => after = before
  end.

(** A session: the events delivered one after the other, each to a mounted
    page; [None] when the page is gone or the event is not on offer. *)
Fixpoint session (evs : list Event) (st : AppState) : option AppState :=
  match evs with
  | [] => Some st
  | ev :: r =>
    if mounted st && offered ev then
      match step ev st with
      | Normal st' => session r st'
      | Throw _ => None
      end
    else None
  end.

(** An add is fresh when the value it reads from the clock is not the id
    of a record then in the collection. *)
Definition freshEvent (ev : Event) (st : AppState) : bool :=
  match ev with
  | ClickAdd now => negb (existsb (Z.eqb now) (ids st))
  | _ => true
  end.

(** The states reached by the sessions whose adds are all fresh. *)
Inductive reachableFresh : AppState -> Prop :=
| fresh_init : reachableFresh initialState
| fresh_step ev st st' :
    reachableFresh st -> mounted st = true -> offered ev = true ->
    freshEvent ev st = true ->
    step ev st = Normal st' ->
    reachableFresh st'.

Fixpoint freshSession (evs : list Event) (st : AppState) : option AppState :=
  match evs with
  | [] => Some st
  | ev :: r =>
    if mounted st && offered ev && freshEvent ev st then
      match step ev st with
      | Normal st' => freshSession r st'
      | Throw _ => None
      end
    else None
  end.

(** ** The grammar of [StringNumericLiteral] (ECMAScript, StringToNumber)

    The productions, as relations on code unit sequences; the recogniser
    above is checked against them. *)

Definition Digits (p : N -> bool) (d : jsstring) : Prop :=
  d <> [] /\ Forall (fun c => p c = true) d.

Definition OptDigits (p : N -> bool) (d : jsstring) : Prop :=
  Forall (fun c => p c = true) d.

Definition WhiteSpaces (w : jsstring) : Prop :=
  Forall (fun c => isStrWhiteSpaceChar c = true) w.

(** The input left over by a run of characters of class [p]: it is empty
    or starts outside the class. *)
Definition stops (p : N -> bool) (r : jsstring) : Prop :=
  match r with
  | [] => True
  | c :: _ => p c = false
  end.

(** A string without white space. *)
Definition NoSpace (l : jsstring) : Prop :=
  Forall (fun c => isStrWhiteSpaceChar c = false) l.

Inductive SignedInteger : jsstring -> Prop :=
| SI_plain d : Digits isDecimalDigit d -> SignedInteger d
| SI_signed c d :
    isSign c = true -> Digits isDecimalDigit d -> SignedInteger (c :: d).

Inductive OptExponentPart : jsstring -> Prop :=
| EP_none : OptExponentPart []
| EP_some c si :
    isExponentIndicator c = true -> SignedInteger si ->
    OptExponentPart (c :: si).

Inductive StrUnsignedDecimalLiteral : jsstring -> Prop :=
| SUDL_Infinity : StrUnsignedDecimalLiteral (utf16 "Infinity")
| SUDL_int_dot d f e :
    Digits isDecimalDigit d -> OptDigits isDecimalDigit f ->
    OptExponentPart e ->
    StrUnsignedDecimalLiteral (d ++ 46 :: f ++ e)
| SUDL_dot f e :
    Digits isDecimalDigit f -> OptExponentPart e ->
    StrUnsignedDecimalLiteral (46 :: f ++ e)
| SUDL_int d e :
    Digits isDecimalDigit d -> OptExponentPart e ->
    StrUnsignedDecimalLiteral (d ++ e).

Inductive StrDecimalLiteral : jsstring -> Prop :=
| SDL_unsigned u : StrUnsignedDecimalLiteral u -> StrDecimalLiteral u
| SDL_signed c u :
    isSign c = true -> StrUnsignedDecimalLiteral u ->
    StrDecimalLiteral (c :: u).

Inductive NonDecimalIntegerLiteral : jsstring -> Prop :=
| NDIL_binary x d :
    x = 98 \/ x = 66 -> Digits isBinaryDigit d ->
    NonDecimalIntegerLiteral (48 :: x :: d)
| NDIL_octal x d :
    x = 111 \/ x = 79 -> Digits isOctalDigit d ->
    NonDecimalIntegerLiteral (48 :: x :: d)
| NDIL_hex x d :
    x = 120 \/ x = 88 -> Digits isHexDigit d ->
    NonDecimalIntegerLiteral (48 :: x :: d).

Inductive StrNumericLiteral : jsstring -> Prop :=
| SNL_decimal l : StrDecimalLiteral l -> StrNumericLiteral l
| SNL_nondecimal l : NonDecimalIntegerLiteral l -> StrNumericLiteral l.

Inductive StringNumericLiteral : jsstring -> Prop :=
| SNL_blank w : WhiteSpaces w -> StringNumericLiteral w
| SNL_literal w1 l w2 :
    WhiteSpaces w1 -> StrNumericLiteral l -> WhiteSpaces w2 ->
    StringNumericLiteral (w1 ++ l ++ w2).

(** A string [Number] converts to a number other than NaN. *)
Definition parseableAsNumber (s : jsstring) : Prop := StringNumericLiteral s.

(** * Properties *)

(** ** Strings *)

Lemma jsstring_eqb_eq (s t : jsstring) : jsstring_eqb s t = true <-> s = t.
Proof.
  revert t; induction s as [|a s IH]; intros [|b t]; simpl;
    try (split; congruence).
  rewrite andb_true_iff, N.eqb_eq, IH. split.
  - intros [-> ->]. reflexivity.
  - intros H. injection H as -> ->. split; reflexivity.
Qed.

Lemma jsstring_eqb_refl (s : jsstring) : jsstring_eqb s s = true.
Proof. now apply jsstring_eqb_eq. Qed.

Lemma truthy_nil_iff (s : jsstring) : truthy s = false <-> s = [].
Proof. destruct s; simpl; split; congruence. Qed.

Lemma not_length_iff (s : jsstring) :
  negb (truthyN (length_js s)) = true <-> s = [].
Proof.
  unfold truthyN, length_js. destruct s; simpl; split; congruence.
Qed.

Lemma trimStart_nil_iff (s : jsstring) : trimStart s = [] <-> WhiteSpaces s.
Proof.
  unfold WhiteSpaces. induction s as [|c s IH]; simpl.
  - split; auto.
  - destruct (isStrWhiteSpaceChar c) eqn:E.
    + rewrite IH. split; intros H.
      * now constructor.
      * now inversion H.
    + split; intros H; [discriminate|]. inversion H; congruence.
Qed.

Lemma trimStart_whitespace (w s : jsstring) :
  WhiteSpaces w -> trimStart (w ++ s) = trimStart s.
Proof.
  induction 1 as [|c w Hc _ IH]; simpl; [reflexivity|]. now rewrite Hc.
Qed.

Lemma trimStart_fixed (c : N) (s : jsstring) :
  isStrWhiteSpaceChar c = false -> trimStart (c :: s) = c :: s.
Proof. intros H; simpl; now rewrite H. Qed.

(** [trimStart] splits its argument into white space and the rest. *)
Lemma trimStart_split (s : jsstring) :
  exists w, WhiteSpaces w /\ s = w ++ trimStart s.
Proof.
  induction s as [|c s (w & Hw & IH)]; simpl.
  - exists []. split; [constructor|reflexivity].
  - destruct (isStrWhiteSpaceChar c) eqn:E.
    + exists (c :: w). split; [now constructor|]. simpl. now f_equal.
    + exists []. split; [constructor|reflexivity].
Qed.

Lemma WhiteSpaces_rev (w : jsstring) : WhiteSpaces w -> WhiteSpaces (rev w).
Proof. unfold WhiteSpaces. intros H. now apply Forall_rev. Qed.

Lemma trimEnd_split (s : jsstring) :
  exists w, WhiteSpaces w /\ s = trimEnd s ++ w.
Proof.
  unfold trimEnd. destruct (trimStart_split (rev s)) as (w & Hw & E).
  exists (rev w). split; [now apply WhiteSpaces_rev|].
  rewrite <- rev_app_distr, <- E. now rewrite rev_involutive.
Qed.

Lemma trim_split (s : jsstring) :
  exists w1 w2, WhiteSpaces w1 /\ WhiteSpaces w2 /\ s = w1 ++ trim s ++ w2.
Proof.
  unfold trim. destruct (trimStart_split s) as (w1 & H1 & E1).
  destruct (trimEnd_split (trimStart s)) as (w2 & H2 & E2).
  exists w1, w2. repeat split; trivial. now rewrite <- E2.
Qed.

(** The trimmed string is empty exactly for white-space-only input. *)
Lemma trim_nil_iff (s : jsstring) : trim s = [] <-> WhiteSpaces s.
Proof.
  split.
  - intros H. destruct (trim_split s) as (w1 & w2 & H1 & H2 & E).
    rewrite H in E. simpl in E. rewrite E. now apply Forall_app.
  - intros H. unfold trim, trimEnd.
    apply trimStart_nil_iff in H. now rewrite H.
Qed.

(** Trimming removes nothing from a string that neither starts nor ends
    with white space, and strips the white space put around it. *)
Lemma trim_inner (w1 w2 l : jsstring) (c d : N) (m : jsstring) :
  WhiteSpaces w1 -> WhiteSpaces w2 ->
  l = c :: m -> isStrWhiteSpaceChar c = false ->
  (exists m', l = m' ++ [d]) -> isStrWhiteSpaceChar d = false ->
  trim (w1 ++ l ++ w2) = l.
Proof.
  intros H1 H2 El Hc (m' & El') Hd. unfold trim.
  rewrite trimStart_whitespace by assumption.
  replace (trimStart (l ++ w2)) with (l ++ w2)
    by (rewrite El; simpl; now rewrite Hc).
  unfold trimEnd. rewrite rev_app_distr.
  rewrite trimStart_whitespace by now apply WhiteSpaces_rev.
  rewrite El', rev_app_distr. simpl. rewrite Hd.
  change (d :: rev m') with (rev [d] ++ rev m').
  now rewrite <- rev_app_distr, rev_involutive.
Qed.

(** ** Adding a field *)

Lemma blank_label_test (L : jsstring) :
  negb (truthy (trim L)) = true <-> WhiteSpaces L.
Proof.
  rewrite negb_true_iff, truthy_nil_iff. apply trim_nil_iff.
Qed.

(** C4. When the draft label is empty or consists of white space only,
    [addField] opens the missing-label alert, returns without queueing any
    update, and the state after the click is the state before it, whatever
    the draft type is: no record is created. *)
Theorem addField_blank_label (fs : list Field) (L T m : jsstring) (now : Z) :
  WhiteSpaces L ->
  alerts (addField now (App.mk fs L T m)) = [msgNoLabel] /\
  queued (addField now (App.mk fs L T m)) = [] /\
  result (addField now (App.mk fs L T m)) = Normal tt /\
  step (ClickAdd now) (App.mk fs L T m) = Normal (App.mk fs L T m) /\
  (forall st', step (ClickAdd now) (App.mk fs L T m) = Normal st' ->
     List.length (App.fields st') = List.length fs).
Proof.
  intros HL. apply blank_label_test in HL.
  unfold step, dispatch, addField. cbn [App.newFieldLabel].
  rewrite HL. cbn. repeat split.
  intros st' [= <-]. reflexivity.
Qed.

(** C4 at a label of a space, a tab and a no-break space. *)
Lemma addField_blank_label_witness :
  WhiteSpaces [32; 9; 160] /\
  step (ClickAdd 1700000000000)
       (App.mk [Field.mk 7 (utf16 "Age") tagNumber (utf16 "4") None]
               [32; 9; 160] tagSelect [])
  = Normal (App.mk [Field.mk 7 (utf16 "Age") tagNumber (utf16 "4") None]
                   [32; 9; 160] tagSelect []).
Proof.
  assert (H : WhiteSpaces [32; 9; 160]) by (repeat constructor).
  split; [exact H|].
  exact (proj1 (proj2 (proj2 (proj2
    (addField_blank_label
       [Field.mk 7 (utf16 "Age") tagNumber (utf16 "4") None]
       [32; 9; 160] tagSelect [] 1700000000000 H))))).
Defined.

(** C5. When the draft label is not empty after trimming, [addField]
    opens no alert and the click appends one record, carrying the reading
    of the clock as id, the draft label, the draft type, an empty value and
    a null error; the records already present keep their places and
    contents, the draft label is cleared and the draft type is kept. *)
Theorem addField_appends (fs : list Field) (L T m : jsstring) (now : Z) :
  trim L <> [] ->
  alerts (addField now (App.mk fs L T m)) = [] /\
  result (addField now (App.mk fs L T m)) = Normal tt /\
  step (ClickAdd now) (App.mk fs L T m)
    = Normal (App.mk (fs ++ [Field.mk now L T [] None]) [] T m) /\
  List.length (fs ++ [Field.mk now L T [] None]) = S (List.length fs) /\
  (forall i, (i < List.length fs)%nat ->
     nth_error (fs ++ [Field.mk now L T [] None]) i = nth_error fs i) /\
  nth_error (fs ++ [Field.mk now L T [] None]) (List.length fs)
    = Some (Field.mk now L T [] None).
Proof.
  intros HL.
  assert (E : negb (truthy (trim L)) = false).
  { destruct (negb (truthy (trim L))) eqn:E; [|reflexivity].
    apply blank_label_test, trim_nil_iff in E. contradiction. }
  unfold step, dispatch, addField. cbn [App.newFieldLabel App.newFieldType].
  rewrite E. cbn. repeat split.
  - rewrite length_app. simpl. lia.
  - intros i Hi. now apply nth_error_app1.
  - rewrite nth_error_app2 by lia. now rewrite Nat.sub_diag.
Qed.

(** C5 at the label [" Age "], kept with its spaces. *)
Lemma addField_appends_witness :
  trim (utf16 " Age ") <> [] /\
  step (ClickAdd 1700000000000)
       (App.mk [Field.mk 7 (utf16 "City") tagText (utf16 "Paris") None]
               (utf16 " Age ") tagNumber [])
  = Normal (App.mk [Field.mk 7 (utf16 "City") tagText (utf16 "Paris") None;
                    Field.mk 1700000000000 (utf16 " Age ") tagNumber [] None]
                   [] tagNumber []).
Proof.
  assert (H : trim (utf16 " Age ") <> []) by (vm_compute; discriminate).
  split; [exact H|].
  exact (proj1 (proj2 (proj2
    (addField_appends
       [Field.mk 7 (utf16 "City") tagText (utf16 "Paris") None]
       (utf16 " Age ") tagNumber [] 1700000000000 H)))).
Defined.

(** ** Editing a field *)

Lemma mapC_pure {A B} (f : A -> completion B) (g : A -> B) (l : list A) :
  (forall a, In a l -> f a = Normal (g a)) -> mapC f l = Normal (map g l).
Proof.
  induction l as [|a l IH]; intros H; simpl; [reflexivity|].
  rewrite (H a) by now left. simpl.
  rewrite IH by (intros; apply H; now right). reflexivity.
Qed.

Lemma mapC_Forall2 {A B} (f : A -> completion B) (l : list A) (l' : list B) :
  mapC f l = Normal l' -> Forall2 (fun a b => f a = Normal b) l l'.
Proof.
  revert l'; induction l as [|a l IH]; simpl; intros l' H.
  - injection H as <-. constructor.
  - destruct (f a) as [b|] eqn:Ea; simpl in H; [|discriminate].
    destruct (mapC f l) as [bs|]; simpl in H; [|discriminate].
    injection H as <-. constructor; auto.
Qed.

Lemma mapC_defined {A B} (f : A -> completion B) (l : list A) :
  (forall a, In a l -> exists b, f a = Normal b) ->
  exists l', mapC f l = Normal l'.
Proof.
  induction l as [|a l IH]; intros H; simpl.
  - now exists [].
  - destruct (H a) as [b Hb]; [now left|]. rewrite Hb. simpl.
    destruct IH as [bs Hbs]; [intros; apply H; now right|].
    rewrite Hbs. simpl. now exists (b :: bs).
Qed.

Lemma registered_callValidate (t v : jsstring) :
  registered t = true -> exists e, callValidate t v = Normal e.
Proof.
  unfold registered, callValidate.
  destruct (getProp fieldTypes t); [eauto | discriminate].
Qed.

(** A call of [fieldTypes[t].validate] that returns has found the entry of
    [t] in the registry and returns what that entry's validator does. *)
Lemma callValidate_registry (t v : jsstring) (e : option jsstring) :
  callValidate t v = Normal e ->
  exists cfg, getProp fieldTypes t = Some cfg /\ e = FieldConfig.validate cfg v.
Proof.
  unfold callValidate. destruct (getProp fieldTypes t) as [cfg|]; [|discriminate].
  intros H. injection H as <-. exists cfg. split; reflexivity.
Qed.

Lemma getProp_number :
  getProp fieldTypes tagNumber
    = Some (FieldConfig.mk (utf16 "Числа") InputNumber validate_number).
Proof. vm_compute. reflexivity. Qed.

Lemma Some_inj_cfg (a b : FieldConfig) : Some a = Some b -> a = b.
Proof. intros H. injection H. trivial. Qed.

Lemma map_same {A} (f : A -> A) (l : list A) :
  (forall a, In a l -> f a = a) -> map f l = l.
Proof.
  induction l as [|a l IH]; intros H; simpl; [reflexivity|].
  rewrite H by now left. rewrite IH; [reflexivity|]. intros; apply H; now right.
Qed.

Lemma updateOne_other (id : Z) (key : FieldKey) (v : jsstring) (f : Field) :
  Field.id f <> id -> updateOne id key v f = Normal f.
Proof.
  intros H. unfold updateOne.
  destruct (Z.eqb_spec (Field.id f) id); [contradiction|reflexivity].
Qed.

Lemma updateField_absent (st : AppState) (id : Z) (key : FieldKey) (v : jsstring) :
  (forall f, In f (App.fields st) -> Field.id f <> id) ->
  flush (queued (updateField id key v)) st = Normal st.
Proof.
  intros H. destruct st as [fs l t m]. cbn in *.
  rewrite (mapC_pure _ (fun f => f)).
  - cbn. now rewrite map_id.
  - intros f Hf. now apply updateOne_other, H.
Qed.

(** C6. [updateField] on a collection in which no record has the id
    leaves the state as it is. With the key [label], every record with the
    id gets the new label and keeps its error. With the key [value],
    provided the records with the id carry registered types, every record
    with the id gets the new value and, as its error, the result of the
    validator that the registry holds for its type, applied to that value.
    In both cases the records with another id, the order, and the rest of
    the state are unchanged. *)
Theorem updateField_spec (fs : list Field) (L T m : jsstring) (id : Z) (v : jsstring) :
  ((forall f, In f fs -> Field.id f <> id) ->
   forall key,
     flush (queued (updateField id key v)) (App.mk fs L T m)
       = Normal (App.mk fs L T m)) /\
  flush (queued (updateField id KLabel v)) (App.mk fs L T m)
    = Normal (App.mk
        (map (fun f =>
           if (Field.id f =? id)%Z
           then Field.mk (Field.id f) v (Field.type f) (Field.value f) (Field.error f)
           else f) fs) L T m) /\
  ((forall f, In f fs -> Field.id f = id -> registered (Field.type f) = true) ->
   exists fs',
     flush (queued (updateField id KValue v)) (App.mk fs L T m)
       = Normal (App.mk fs' L T m) /\
     Forall2 (fun f f' =>
       if (Field.id f =? id)%Z
       then exists cfg,
              getProp fieldTypes (Field.type f) = Some cfg /\
              f' = Field.mk (Field.id f) (Field.label f) (Field.type f) v
                            (FieldConfig.validate cfg v)
       else f' = f) fs fs').
Proof.
  split; [|split].
  - intros H key. now apply (updateField_absent (App.mk fs L T m)).
  - cbn. rewrite (mapC_pure _ (fun f =>
      if (Field.id f =? id)%Z
      then Field.mk (Field.id f) v (Field.type f) (Field.value f) (Field.error f)
      else f)); [reflexivity|].
    intros f _. unfold updateOne. now destruct (Field.id f =? id)%Z.
  - intros H. cbn.
    destruct (mapC_defined (updateOne id KValue v) fs) as [fs' E].
    { intros f Hf. unfold updateOne.
      destruct (Z.eqb_spec (Field.id f) id) as [Hid|Hid]; [|eauto].
      destruct (registered_callValidate (Field.type f) v (H f Hf Hid)) as [e ->].
      cbn. eauto. }
    exists fs'. rewrite E. cbn. split; [reflexivity|].
    apply mapC_Forall2 in E.
    eapply Forall2_impl; [|exact E]. cbn. intros f f' Hf. unfold updateOne in Hf.
    destruct (Field.id f =? id)%Z.
    + destruct (callValidate (Field.type f) v) as [e|] eqn:Ev; cbn in Hf;
        [|discriminate].
      apply callValidate_registry in Ev as (cfg & Ec & ->).
      exists cfg. split; [exact Ec|]. now injection Hf as <-.
    + now injection Hf as <-.
Qed.

(** C6 at a value edit of a number field to ["abc"]: the record gets the
    value and the must-be-a-number error. *)
Lemma updateField_spec_witness :
  (forall f, In f [Field.mk 7 (utf16 "Age") tagNumber [] None] ->
     Field.id f = 7%Z -> registered (Field.type f) = true) /\
  flush (queued (updateField 7 KValue (utf16 "abc")))
        (App.mk [Field.mk 7 (utf16 "Age") tagNumber [] None] [] tagText [])
    = Normal (App.mk [Field.mk 7 (utf16 "Age") tagNumber (utf16 "abc")
                               (Some msgNumber)] [] tagText []).
Proof.
  assert (H : forall f, In f [Field.mk 7 (utf16 "Age") tagNumber [] None] ->
     Field.id f = 7%Z -> registered (Field.type f) = true).
  { intros f [<-|[]] _. reflexivity. }
  split; [exact H|].
  destruct (proj2 (proj2
    (updateField_spec [Field.mk 7 (utf16 "Age") tagNumber [] None]
                      [] tagText [] 7 (utf16 "abc"))) H) as (fs' & E & F).
  rewrite E.
  inversion F as [|f0 f' l0 l' Hhd Htl]; subst. inversion Htl; subst.
  cbv beta iota delta [Field.id Field.type Field.label] in Hhd.
  rewrite Z.eqb_refl in Hhd. destruct Hhd as (cfg & Ec & Ef).
  rewrite getProp_number in Ec. apply Some_inj_cfg in Ec. subst cfg f'.
  vm_compute. reflexivity.
Defined.

(** ** Saving *)

(** On a mounted page every record carries a registered type: the render
    looked each of them up. *)
Lemma mounted_registered (st : AppState) :
  mounted st = true ->
  forall f, In f (App.fields st) -> registered (Field.type f) = true.
Proof.
  unfold mounted, render.
  destruct (mapC renderField (App.fields st)) as [rs|] eqn:E; [|discriminate].
  intros _ f Hf. apply mapC_Forall2 in E.
  assert (H : exists row, renderField f = Normal row).
  { clear -E Hf. induction E as [|a b l l' Hab _ IH]; [contradiction|].
    destruct Hf as [->|Hf]; eauto. }
  destruct H as [row H]. unfold renderField, callRender, registered in *.
  destruct (getProp fieldTypes (Field.type f)); [reflexivity|discriminate].
Qed.

Lemma fieldTypes_cases (t : jsstring) (cfg : FieldConfig) :
  getProp fieldTypes t = Some cfg ->
  FieldConfig.validate cfg = validate_text \/
  FieldConfig.validate cfg = validate_number \/
  FieldConfig.validate cfg = validate_select.
Proof.
  unfold fieldTypes. cbn [getProp].
  destruct (jsstring_eqb tagText t); [intros [= <-]; auto|].
  destruct (jsstring_eqb tagNumber t); [intros [= <-]; auto|].
  destruct (jsstring_eqb tagSelect t); [intros [= <-]; auto|].
  discriminate.
Qed.

Lemma registered_iff (t : jsstring) :
  registered t = true <-> t = tagText \/ t = tagNumber \/ t = tagSelect.
Proof.
  unfold registered, fieldTypes. cbn [getProp].
  destruct (jsstring_eqb tagText t) eqn:E1.
  { apply jsstring_eqb_eq in E1. split; [intros _; left; now symmetry|reflexivity]. }
  destruct (jsstring_eqb tagNumber t) eqn:E2.
  { apply jsstring_eqb_eq in E2.
    split; [intros _; right; left; now symmetry|reflexivity]. }
  destruct (jsstring_eqb tagSelect t) eqn:E3.
  { apply jsstring_eqb_eq in E3.
    split; [intros _; right; right; now symmetry|reflexivity]. }
  split; [discriminate|].
  intros [H|[H|H]]; subst t.
  - rewrite jsstring_eqb_refl in E1. discriminate E1.
  - rewrite jsstring_eqb_refl in E2. discriminate E2.
  - rewrite jsstring_eqb_refl in E3. discriminate E3.
Qed.

(** No validator of the registry returns the empty string: an error is
    truthy exactly when it is not null. *)
Lemma callValidate_truthy (t v : jsstring) (e : option jsstring) :
  callValidate t v = Normal e -> truthy_opt e = true <-> e <> None.
Proof.
  unfold callValidate. destruct (getProp fieldTypes t) as [cfg|] eqn:E;
    [|discriminate].
  intros [= <-].
  destruct (fieldTypes_cases t cfg E) as [-> | [-> | ->]];
    unfold validate_text, validate_number, validate_select;
    repeat match goal with |- context [if ?b then _ else _] => destruct b end;
    cbn; split; congruence.
Qed.

Lemma saveLoop_defined (fs : list Field) (h : bool) :
  (forall f, In f fs -> registered (Field.type f) = true) ->
  exists updated h', saveLoop fs h = Normal (updated, h').
Proof.
  revert h; induction fs as [|f fs IH]; intros h H; simpl; [eauto|].
  destruct (registered_callValidate (Field.type f) (Field.value f)) as [e ->];
    [apply H; now left|]. cbn.
  destruct (IH (if truthy_opt e then true else h)) as (u & h' & ->);
    [intros; apply H; now right|].
  cbn. eauto.
Qed.

Lemma saveLoop_spec (fs : list Field) (h : bool) (updated : list Field) (h' : bool) :
  saveLoop fs h = Normal (updated, h') ->
  Forall2 (fun f f' => exists e,
    callValidate (Field.type f) (Field.value f) = Normal e /\
    f' = Field.mk (Field.id f) (Field.label f) (Field.type f) (Field.value f) e)
    fs updated /\
  (h' = true <-> h = true \/ Exists (fun f' => Field.error f' <> None) updated).
Proof.
  revert h updated h'; induction fs as [|f fs IH]; simpl; intros h updated h' H.
  - injection H as <- <-. split; [constructor|].
    split; [auto|]. intros [?|X]; [assumption|inversion X].
  - destruct (callValidate (Field.type f) (Field.value f)) as [e|] eqn:Ee;
      cbn in H; [|discriminate].
    destruct (saveLoop fs (if truthy_opt e then true else h)) as [[u hu]|] eqn:El;
      cbn in H; [|discriminate].
    injection H as <- <-.
    destruct (IH _ _ _ El) as [F Hh]. split.
    + constructor; [|exact F]. exists e. split; [exact Ee|reflexivity].
    + rewrite Hh. pose proof (callValidate_truthy _ _ _ Ee) as Tr.
      split.
      * intros [Hc|Hx]; [|right; now apply Exists_cons_tl].
        destruct (truthy_opt e) eqn:Et; [|now left].
        right. apply Exists_cons_hd. cbn. now apply Tr.
      * intros [Hc|Hx].
        -- left. subst h. now destruct (truthy_opt e).
        -- inversion Hx as [? ? Hhd|? ? Htl]; subst.
           ++ cbn in Hhd. apply Tr in Hhd. rewrite Hhd. now left.
           ++ now right.
Qed.

Lemma msgInvalid_neq_msgSaved : msgInvalid <> msgSaved.
Proof. vm_compute. discriminate. Qed.

Lemma not_Exists_error (l : list Field) :
  ~ Exists (fun f' => Field.error f' <> None) l <->
  Forall (fun f' => Field.error f' = None) l.
Proof.
  rewrite <- Forall_Exists_neg. split; apply Forall_impl; intros f H.
  - destruct (Field.error f); [exfalso; apply H; discriminate|reflexivity].
  - congruence.
Qed.

(** C2. On a collection whose records carry registered types, [saveForm]
    returns; after the click every record has as its error the result of
    the validator that the registry holds for its type, applied to its
    value; the message is the invalid-form text exactly when one of these
    errors is not null and the success text exactly when all are null. On
    the empty collection the message is the success text. *)
Theorem saveForm_spec (fs : list Field) (L T m : jsstring) :
  (forall f, In f fs -> registered (Field.type f) = true) ->
  exists fs' msg,
    result (saveForm (App.mk fs L T m)) = Normal tt /\
    step ClickSave (App.mk fs L T m) = Normal (App.mk fs' L T msg) /\
    Forall2 (fun f f' => exists cfg,
      getProp fieldTypes (Field.type f) = Some cfg /\
      f' = Field.mk (Field.id f) (Field.label f) (Field.type f) (Field.value f)
                    (FieldConfig.validate cfg (Field.value f)))
      fs fs' /\
    (msg = msgInvalid <-> Exists (fun f' => Field.error f' <> None) fs') /\
    (msg = msgSaved <-> Forall (fun f' => Field.error f' = None) fs') /\
    (fs = [] -> msg = msgSaved).
Proof.
  intros H. destruct (saveLoop_defined fs false H) as (updated & h' & E).
  destruct (saveLoop_spec _ _ _ _ E) as [F0 Hh].
  assert (F : Forall2 (fun f f' => exists cfg,
      getProp fieldTypes (Field.type f) = Some cfg /\
      f' = Field.mk (Field.id f) (Field.label f) (Field.type f) (Field.value f)
                    (FieldConfig.validate cfg (Field.value f))) fs updated).
  { eapply Forall2_impl; [|exact F0]. cbn. intros f f' (e & He & ->).
    apply callValidate_registry in He as (cfg & Ec & ->).
    exists cfg. split; [exact Ec|reflexivity]. }
  clear F0.
  exists updated, (if h' then msgInvalid else msgSaved).
  unfold step, dispatch, saveForm. cbn [App.fields]. rewrite E.
  cbn -[msgInvalid msgSaved].
  repeat split; trivial.
  - destruct h'; intros Hm.
    + destruct Hh as [Hh _]. destruct (Hh eq_refl) as [?|?];
        [discriminate|assumption].
    + symmetry in Hm. now apply msgInvalid_neq_msgSaved in Hm.
  - intros Hx. destruct h'; [reflexivity|].
    assert (false = true) by (apply Hh; now right). discriminate.
  - intros Hm. apply not_Exists_error. intros Hx.
    destruct h'; [now apply msgInvalid_neq_msgSaved in Hm|].
    assert (false = true) by (apply Hh; now right). discriminate.
  - intros Hf. destruct h'; [|reflexivity].
    apply not_Exists_error in Hf.
    destruct Hh as [Hh _]. destruct (Hh eq_refl) as [?|?];
      [discriminate|contradiction].
  - intros ->. simpl in E. now injection E as <- <-.
Qed.

(** C2 at a collection of one number field holding ["x"]: the record gets
    the must-be-a-number error and the message is the invalid-form text. *)
Lemma saveForm_spec_witness :
  (forall f, In f [Field.mk 7 (utf16 "Age") tagNumber (utf16 "x") None] ->
     registered (Field.type f) = true) /\
  step ClickSave (App.mk [Field.mk 7 (utf16 "Age") tagNumber (utf16 "x") None]
                         [] tagText [])
    = Normal (App.mk [Field.mk 7 (utf16 "Age") tagNumber (utf16 "x")
                               (Some msgNumber)] [] tagText msgInvalid).
Proof.
  assert (H : forall f,
    In f [Field.mk 7 (utf16 "Age") tagNumber (utf16 "x") None] ->
    registered (Field.type f) = true).
  { intros f [<-|[]]. reflexivity. }
  split; [exact H|].
  destruct (saveForm_spec [Field.mk 7 (utf16 "Age") tagNumber (utf16 "x") None]
                          [] tagText [] H)
    as (fs' & msg & _ & Hs & F & Hinv & _ & _).
  rewrite Hs.
  inversion F as [|f0 f' l0 l' Hhd Htl]; subst. inversion Htl; subst.
  destruct Hhd as (cfg & Ec & Ef).
  cbv beta iota delta [Field.type] in Ec.
  rewrite getProp_number in Ec. apply Some_inj_cfg in Ec. subst cfg.
  assert (Em : msg = msgInvalid).
  { apply (proj2 Hinv). apply Exists_cons_hd. rewrite Ef.
    vm_compute. intros X. discriminate X. }
  subst msg f'. vm_compute. reflexivity.
Defined.

Lemma Forall2_map_eq {A B} (p : A -> B) (R : A -> A -> Prop) (l l' : list A) :
  (forall a a', R a a' -> p a' = p a) -> Forall2 R l l' -> map p l' = map p l.
Proof.
  intros HR. induction 1 as [|a a' l l' Ha _ IH]; simpl; [reflexivity|].
  now rewrite (HR _ _ Ha), IH.
Qed.

(** C8. [saveForm] never makes the click fail, and the state after the
    click has the same records in the same order with the same id, label,
    type and value, and the same drafts: only errors and the message can
    differ. The handler queues either nothing (it threw before reaching a
    setter, and the state is untouched) or exactly one replacement of the
    whole collection followed by the message, so no state with only some
    errors recomputed is ever set. *)
Theorem saveForm_frame (st : AppState) :
  exists st',
    step ClickSave st = Normal st' /\
    map Field.id (App.fields st') = map Field.id (App.fields st) /\
    map Field.label (App.fields st') = map Field.label (App.fields st) /\
    map Field.type (App.fields st') = map Field.type (App.fields st) /\
    map Field.value (App.fields st') = map Field.value (App.fields st) /\
    List.length (App.fields st') = List.length (App.fields st) /\
    App.newFieldLabel st' = App.newFieldLabel st /\
    App.newFieldType st' = App.newFieldType st /\
    ((queued (saveForm st) = [] /\ result (saveForm st) = Throw TypeError /\
      st' = st) \/
     (exists updated msg,
        queued (saveForm st)
          = [setFields (fun _ => Normal updated); setMessage msg] /\
        result (saveForm st) = Normal tt /\
        st' = App.mk updated (App.newFieldLabel st) (App.newFieldType st) msg)).
Proof.
  destruct st as [fs L T m]. unfold step, dispatch, saveForm. cbn [App.fields].
  destruct (saveLoop fs false) as [[updated h]|[]] eqn:E.
  - exists (App.mk updated L T (if h then msgInvalid else msgSaved)).
    apply saveLoop_spec in E as [F _].
    cbn -[msgInvalid msgSaved].
    repeat split.
    + eapply Forall2_map_eq; [|exact F]. intros a a' (e & _ & ->). reflexivity.
    + eapply Forall2_map_eq; [|exact F]. intros a a' (e & _ & ->). reflexivity.
    + eapply Forall2_map_eq; [|exact F]. intros a a' (e & _ & ->). reflexivity.
    + eapply Forall2_map_eq; [|exact F]. intros a a' (e & _ & ->). reflexivity.
    + symmetry. eapply Forall2_length, F.
    + right. exists updated, (if h then msgInvalid else msgSaved). auto.
  - exists (App.mk fs L T m). cbn. repeat split. left. auto.
Qed.

(** ** Removing a field *)

Lemma keeps_true (id : Z) (f : Field) : keeps id f = true <-> Field.id f <> id.
Proof.
  unfold keeps. rewrite negb_true_iff. now destruct (Z.eqb_spec (Field.id f) id).
Qed.

Lemma filter_same {A} (p : A -> bool) (l : list A) :
  (forall a, In a l -> p a = true) -> filter p l = l.
Proof.
  induction l as [|a l IH]; intros H; simpl; [reflexivity|].
  rewrite H by now left. rewrite IH; [reflexivity|]. intros; apply H; now right.
Qed.

Lemma removeField_step (fs : list Field) (L T m : jsstring) (id : Z) :
  step (ClickRemove id) (App.mk fs L T m)
    = Normal (App.mk (filter (keeps id) fs) L T m).
Proof. reflexivity. Qed.

(** C9. Clicking remove returns the collection without the records that
    have the id: a record is in the result exactly when it was in the
    collection under another id, a collection in which one record has the
    id loses that record and keeps the others in their order, and a
    collection without the id is unchanged. On the state so obtained a
    second remove, an [updateField] with any key, a value edit and a rename
    of the same id all return normally and leave the state as it is. *)
Theorem removeField_spec (fs : list Field) (L T m : jsstring) (id : Z) :
  let st' := App.mk (filter (keeps id) fs) L T m in
  result (removeField id) = Normal tt /\
  step (ClickRemove id) (App.mk fs L T m) = Normal st' /\
  (forall f, In f (App.fields st') <-> In f fs /\ Field.id f <> id) /\
  (forall pre r post,
     fs = pre ++ r :: post -> Field.id r = id ->
     (forall f, In f pre \/ In f post -> Field.id f <> id) ->
     App.fields st' = pre ++ post) /\
  ((forall f, In f fs -> Field.id f <> id) -> st' = App.mk fs L T m) /\
  step (ClickRemove id) st' = Normal st' /\
  (forall key v,
     result (updateField id key v) = Normal tt /\
     flush (queued (updateField id key v)) st' = Normal st') /\
  (forall v, step (EditValue id v) st' = Normal st') /\
  (forall answer,
     result (updateLabel id answer st') = Normal tt /\
     step (ClickRename id answer) st' = Normal st').
Proof.
  intros st'.
  assert (Hgone : forall f, In f (App.fields st') -> Field.id f <> id).
  { intros f Hf. apply filter_In in Hf as [_ Hf]. now apply keeps_true. }
  split; [reflexivity|]. split; [reflexivity|]. split.
  { intros f. cbn. rewrite filter_In, keeps_true. reflexivity. }
  split.
  { intros pre r post -> Hr Hrest. cbn. rewrite filter_app. simpl.
    replace (keeps id r) with false
      by (symmetry; unfold keeps; rewrite Hr, Z.eqb_refl; reflexivity).
    rewrite !filter_same; [reflexivity| |];
      intros f Hf; apply keeps_true, Hrest; auto. }
  split.
  { intros H. unfold st'. rewrite filter_same; [reflexivity|].
    intros f Hf. now apply keeps_true, H. }
  split.
  { unfold st'. rewrite removeField_step. f_equal. f_equal.
    apply filter_same. intros f Hf. apply keeps_true.
    apply Hgone. exact Hf. }
  split.
  { intros key v. split; [reflexivity|]. now apply updateField_absent. }
  split.
  { intros v. unfold step, dispatch. now apply updateField_absent. }
  intros answer. unfold step, dispatch, updateLabel.
  destruct answer as [newLabel|]; [destruct (truthy newLabel)|];
    cbn [queued result]; (split; [reflexivity|]);
    try reflexivity.
  now apply updateField_absent.
Qed.

(** ** Changing the type of a field *)

Lemma updateType_step (fs : list Field) (L T m v : jsstring) (id : Z) :
  step (PickType id v) (App.mk fs L T m)
    = Normal (App.mk
        (map (fun f =>
           if (Field.id f =? id)%Z
           then Field.mk (Field.id f) (Field.label f) v [] (Field.error f)
           else f) fs) L T m).
Proof. reflexivity. Qed.

Lemma session_reachable (evs : list Event) (st st' : AppState) :
  reachable st -> session evs st = Some st' -> reachable st'.
Proof.
  revert st; induction evs as [|ev evs IH]; simpl; intros st R H.
  - now injection H as <-.
  - destruct (mounted st) eqn:M; [|discriminate].
    destruct (offered ev) eqn:O; [|discriminate]. simpl in H.
    destruct (step ev st) as [st1|] eqn:S; [|discriminate].
    apply (IH st1); [|exact H]. now apply (reach_step ev st).
Qed.

(** C1. A record that has an error keeps it when its type is changed:
    after adding a field, saving the form (the empty value is reported as
    required) and picking the type [number], the record has the new type
    and an empty value, and still carries the required-field error instead
    of null. Likewise a number field showing the must-be-a-number error
    keeps that message when it is turned into a text field. *)
Theorem updateType_keeps_error :
  session [TypeLabel (utf16 "Name"); ClickAdd 1; ClickSave; PickType 1 tagNumber]
          initialState
    = Some (App.mk [Field.mk 1 (utf16 "Name") tagNumber [] (Some msgRequired)]
                   [] tagText msgInvalid) /\
  step (PickType 1 tagText)
       (App.mk [Field.mk 1 (utf16 "Age") tagNumber (utf16 "abc") (Some msgNumber)]
               [] tagText [])
    = Normal (App.mk [Field.mk 1 (utf16 "Age") tagText [] (Some msgNumber)]
                     [] tagText []) /\
  Some msgRequired <> None /\ Some msgNumber <> None.
Proof.
  split; [vm_compute; reflexivity|]. split; [reflexivity|].
  split; discriminate.
Qed.

(** C3. The type selector of a field offers the empty string, which is not
    a registered tag, and [updateType] stores it: after adding a field and
    picking that option the record's type is the empty string, a state that
    is reachable. No descriptor is found for it: rendering throws, and so
    do [saveForm] and the updater of a value edit. *)
Theorem updateType_unregistered_tag :
  offered (PickType 1 []) = true /\
  registered [] = false /\
  session [TypeLabel (utf16 "Name"); ClickAdd 1; PickType 1 []] initialState
    = Some (App.mk [Field.mk 1 (utf16 "Name") [] [] None] [] tagText []) /\
  reachable (App.mk [Field.mk 1 (utf16 "Name") [] [] None] [] tagText []) /\
  render (App.mk [Field.mk 1 (utf16 "Name") [] [] None] [] tagText [])
    = Throw TypeError /\
  result (saveForm (App.mk [Field.mk 1 (utf16 "Name") [] [] None] [] tagText []))
    = Throw TypeError /\
  step (EditValue 1 (utf16 "a"))
       (App.mk [Field.mk 1 (utf16 "Name") [] [] None] [] tagText [])
    = Throw TypeError.
Proof.
  assert (S : session [TypeLabel (utf16 "Name"); ClickAdd 1; PickType 1 []]
                      initialState
    = Some (App.mk [Field.mk 1 (utf16 "Name") [] [] None] [] tagText []))
    by (vm_compute; reflexivity).
  repeat split; try reflexivity; try exact S.
  exact (session_reachable _ _ _ reach_init S).
Qed.

(** ** Identity of the records *)

Lemma mapC_updateOne_ids (id : Z) (key : FieldKey) (v : jsstring)
    (fs fs' : list Field) :
  mapC (updateOne id key v) fs = Normal fs' ->
  map Field.id fs' = map Field.id fs.
Proof.
  intros H. apply mapC_Forall2 in H.
  eapply Forall2_map_eq; [|exact H]. cbn. intros f f' Hf.
  unfold updateOne in Hf. destruct (Field.id f =? id)%Z.
  - destruct key; cbn in Hf;
      try (destruct (callValidate (Field.type f) v); cbn in Hf; [|discriminate]);
      now injection Hf as <-.
  - now injection Hf as <-.
Qed.

Lemma saveLoop_ids (fs : list Field) (h : bool) (updated : list Field) (h' : bool) :
  saveLoop fs h = Normal (updated, h') ->
  map Field.id updated = map Field.id fs.
Proof.
  intros E. apply saveLoop_spec in E as [F _].
  eapply Forall2_map_eq; [|exact F]. intros a a' (e & _ & ->). reflexivity.
Qed.

Lemma map_id_filter_keeps (id : Z) (fs : list Field) :
  map Field.id (filter (keeps id) fs)
    = filter (fun i => negb (i =? id)%Z) (map Field.id fs).
Proof.
  induction fs as [|f fs IH]; simpl; [reflexivity|].
  unfold keeps at 1. destruct (negb (Field.id f =? id)%Z); simpl; now rewrite IH.
Qed.

Lemma step_ids (ev : Event) (st st' : AppState) :
  step ev st = Normal st' -> idsAfter ev (ids st) (ids st').
Proof.
  destruct st as [fs L T m]. unfold step, ids.
  destruct ev as [s|v|now|id v|id answer|id v|id|]; cbn [dispatch idsAfter].
  - intros [= <-]. reflexivity.
  - intros [= <-]. reflexivity.
  - unfold addField. cbn [App.newFieldLabel App.newFieldType].
    destruct (negb (truthy (trim L))); cbn; intros [= <-]; cbn.
    + now left.
    + right. now rewrite map_app.
  - cbn. destruct (mapC (updateOne id KValue v) fs) as [fs'|] eqn:E;
      cbn; [|discriminate].
    intros [= <-]. cbn. now apply mapC_updateOne_ids in E.
  - unfold updateLabel.
    destruct answer as [newLabel|]; [destruct (truthy newLabel)|]; cbn;
      try (intros [= <-]; reflexivity).
    destruct (mapC (updateOne id KLabel newLabel) fs) as [fs'|] eqn:E;
      cbn; [|discriminate].
    intros [= <-]. cbn. now apply mapC_updateOne_ids in E.
  - cbn. intros [= <-]. cbn. rewrite map_map.
    apply map_ext. intros f. now destruct (Field.id f =? id)%Z.
  - cbn. intros [= <-]. cbn. apply map_id_filter_keeps.
  - unfold saveForm. cbn [App.fields].
    destruct (saveLoop fs false) as [[updated h]|] eqn:E;
      cbn -[msgInvalid msgSaved]; intros [= <-]; [|reflexivity].
    cbn. now apply saveLoop_ids in E.
Qed.

Lemma NoDup_filter {A} (p : A -> bool) (l : list A) :
  NoDup l -> NoDup (filter p l).
Proof.
  induction 1 as [|a l Ha _ IH]; simpl; [constructor|].
  destruct (p a); [|exact IH]. constructor; [|exact IH].
  intros Hin. apply filter_In in Hin as [Hin _]. contradiction.
Qed.

Lemma NoDup_snoc {A} (l : list A) (a : A) :
  NoDup l -> ~ In a l -> NoDup (l ++ [a]).
Proof.
  intros Hl Ha. apply NoDup_app; [exact Hl|repeat constructor; auto| ].
  intros x Hx [<-|[]]. contradiction.
Qed.

Lemma reachableFresh_NoDup (st : AppState) :
  reachableFresh st -> NoDup (ids st).
Proof.
  induction 1 as [|ev st st' _ IH _ _ Hfresh Hstep]; [constructor|].
  apply step_ids in Hstep. destruct ev; cbn in Hstep;
    try (rewrite Hstep; exact IH).
  - destruct Hstep as [-> | ->]; [exact IH|].
    apply NoDup_snoc; [exact IH|]. cbn in Hfresh.
    apply negb_true_iff in Hfresh. intros Hin.
    assert (existsb (Z.eqb now) (ids st) = true); [|congruence].
    apply existsb_exists. exists now. split; [exact Hin|apply Z.eqb_refl].
  - rewrite Hstep. now apply NoDup_filter.
Qed.

Lemma freshSession_reachable (evs : list Event) (st st' : AppState) :
  reachableFresh st -> freshSession evs st = Some st' -> reachableFresh st'.
Proof.
  revert st; induction evs as [|ev evs IH]; simpl; intros st R H.
  - now injection H as <-.
  - destruct (mounted st) eqn:M; [|discriminate].
    destruct (offered ev) eqn:O; [|discriminate].
    destruct (freshEvent ev st) eqn:F; [|discriminate]. simpl in H.
    destruct (step ev st) as [st1|] eqn:S; [|discriminate].
    apply (IH st1); [|exact H]. now apply (fresh_step ev st).
Defined.

(** X13. In the states reached by sessions in which every add reads from
    the clock a value that is not the id of a record of the collection, no
    two records share an id; and whatever the event, the ids of the records
    are carried over unchanged: an add keeps the sequence of ids or appends
    the clock reading, a remove drops the occurrences of its id, and every
    other event leaves the sequence as it is. *)
Theorem ids_unique_when_fresh (st : AppState) :
  reachableFresh st ->
  NoDup (ids st) /\
  forall ev st', step ev st = Normal st' -> idsAfter ev (ids st) (ids st').
Proof.
  intros R. split; [now apply reachableFresh_NoDup|].
  intros ev st'. apply step_ids.
Qed.

(** X13 at two adds one millisecond apart. *)
Lemma ids_unique_when_fresh_witness :
  reachableFresh
    (App.mk [Field.mk 1700000000000 (utf16 "A") tagText [] None;
             Field.mk 1700000000001 (utf16 "B") tagText [] None]
            [] tagText []) /\
  NoDup [1700000000000; 1700000000001]%Z.
Proof.
  assert (R : reachableFresh
    (App.mk [Field.mk 1700000000000 (utf16 "A") tagText [] None;
             Field.mk 1700000000001 (utf16 "B") tagText [] None]
            [] tagText [])).
  { apply (freshSession_reachable
      [TypeLabel (utf16 "A"); ClickAdd 1700000000000;
       TypeLabel (utf16 "B"); ClickAdd 1700000000001] initialState);
      [exact fresh_init | vm_compute; reflexivity]. }
  split; [exact R|].
  exact (proj1 (ids_unique_when_fresh _ R)).
Defined.

(** C10. Two adds that read the same value from the clock leave two
    records with the same id, in a state a session reaches. The handlers
    select records by id only, so on that state one value edit rewrites
    both records and one remove deletes both. *)
Theorem duplicate_ids_reachable :
  session [TypeLabel (utf16 "A"); ClickAdd 1700000000000;
           TypeLabel (utf16 "B"); ClickAdd 1700000000000] initialState
    = Some (App.mk [Field.mk 1700000000000 (utf16 "A") tagText [] None;
                    Field.mk 1700000000000 (utf16 "B") tagText [] None]
                   [] tagText []) /\
  reachable (App.mk [Field.mk 1700000000000 (utf16 "A") tagText [] None;
                     Field.mk 1700000000000 (utf16 "B") tagText [] None]
                    [] tagText []) /\
  ~ NoDup (ids (App.mk [Field.mk 1700000000000 (utf16 "A") tagText [] None;
                        Field.mk 1700000000000 (utf16 "B") tagText [] None]
                       [] tagText [])) /\
  step (EditValue 1700000000000 (utf16 "x"))
       (App.mk [Field.mk 1700000000000 (utf16 "A") tagText [] None;
                Field.mk 1700000000000 (utf16 "B") tagText [] None]
               [] tagText [])
    = Normal (App.mk [Field.mk 1700000000000 (utf16 "A") tagText (utf16 "x") None;
                      Field.mk 1700000000000 (utf16 "B") tagText (utf16 "x") None]
                     [] tagText []) /\
  step (ClickRemove 1700000000000)
       (App.mk [Field.mk 1700000000000 (utf16 "A") tagText [] None;
                Field.mk 1700000000000 (utf16 "B") tagText [] None]
               [] tagText [])
    = Normal (App.mk [] [] tagText []).
Proof.
  assert (S : session [TypeLabel (utf16 "A"); ClickAdd 1700000000000;
           TypeLabel (utf16 "B"); ClickAdd 1700000000000] initialState
    = Some (App.mk [Field.mk 1700000000000 (utf16 "A") tagText [] None;
                    Field.mk 1700000000000 (utf16 "B") tagText [] None]
                   [] tagText [])) by (vm_compute; reflexivity).
  split; [exact S|]. split; [exact (session_reachable _ _ _ reach_init S)|].
  split.
  { cbn. intros H. inversion H as [|? ? Hin _]. apply Hin. now left. }
  split; vm_compute; reflexivity.
Qed.

(** X14. Whatever the state, no event changes the id of a record: an add
    keeps the sequence of ids or appends the clock reading, a remove drops
    the occurrences of its id, and every other event returns the sequence
    of ids as it was. *)
Theorem ids_carried_over (ev : Event) (st st' : AppState) :
  step ev st = Normal st' -> idsAfter ev (ids st) (ids st').
Proof.
  intros Hstep. apply step_ids. exact Hstep.
Qed.

(** X14 at a value edit and at a type change of one of two records. *)
Lemma ids_carried_over_witness :
  step (EditValue 2 (utf16 "x"))
       (App.mk [Field.mk 1 (utf16 "A") tagText [] None;
                Field.mk 2 (utf16 "B") tagNumber [] None] [] tagText [])
    = Normal (App.mk [Field.mk 1 (utf16 "A") tagText [] None;
                      Field.mk 2 (utf16 "B") tagNumber (utf16 "x")
                               (Some msgNumber)] [] tagText []) /\
  ids (App.mk [Field.mk 1 (utf16 "A") tagText [] None;
               Field.mk 2 (utf16 "B") tagNumber (utf16 "x") (Some msgNumber)]
              [] tagText [])
    = ids (App.mk [Field.mk 1 (utf16 "A") tagText [] None;
                   Field.mk 2 (utf16 "B") tagNumber [] None] [] tagText []).
Proof.
  assert (S : step (EditValue 2 (utf16 "x"))
       (App.mk [Field.mk 1 (utf16 "A") tagText [] None;
                Field.mk 2 (utf16 "B") tagNumber [] None] [] tagText [])
    = Normal (App.mk [Field.mk 1 (utf16 "A") tagText [] None;
                      Field.mk 2 (utf16 "B") tagNumber (utf16 "x")
                               (Some msgNumber)] [] tagText []))
    by (vm_compute; reflexivity).
  split; [exact S|].
  exact (ids_carried_over _ _ _ S).
Defined.

(** ** The recogniser of numeric strings against the grammar *)

Ltac charclass :=
  unfold isStrWhiteSpaceChar, isWhiteSpace, isLineTerminator, isHexDigit,
    isDecimalDigit, isBinaryDigit, isOctalDigit, isSign, isExponentIndicator,
    isDot in *;
  rewrite ?orb_true_iff, ?andb_true_iff, ?orb_false_iff, ?andb_false_iff,
    ?N.leb_le, ?N.leb_gt, ?N.eqb_eq, ?N.eqb_neq in *;
  lia.

Lemma digit_not_sign (c : N) : isDecimalDigit c = true -> isSign c = false.
Proof. intros H. charclass. Qed.

Lemma digit_not_dot (c : N) : isDecimalDigit c = true -> isDot c = false.
Proof. intros H. charclass. Qed.

Lemma indicator_not_digit (c : N) :
  isExponentIndicator c = true -> isDecimalDigit c = false.
Proof. intros H. charclass. Qed.

Lemma indicator_not_dot (c : N) : isExponentIndicator c = true -> isDot c = false.
Proof. intros H. charclass. Qed.

Lemma dot_not_digit (c : N) : isDot c = true -> isDecimalDigit c = false.
Proof. intros H. charclass. Qed.

Lemma isDot_eq (c : N) : isDot c = true <-> c = 46.
Proof. apply N.eqb_eq. Qed.

Lemma hex_not_space (c : N) : isHexDigit c = true -> isStrWhiteSpaceChar c = false.
Proof. intros H. charclass. Qed.

Lemma digit_is_hex (c : N) : isDecimalDigit c = true -> isHexDigit c = true.
Proof. intros H. charclass. Qed.

Lemma octal_is_hex (c : N) : isOctalDigit c = true -> isHexDigit c = true.
Proof. intros H. charclass. Qed.

Lemma binary_is_hex (c : N) : isBinaryDigit c = true -> isHexDigit c = true.
Proof. intros H. charclass. Qed.

Lemma sign_not_space (c : N) : isSign c = true -> isStrWhiteSpaceChar c = false.
Proof. intros H. charclass. Qed.

Lemma indicator_not_space (c : N) :
  isExponentIndicator c = true -> isStrWhiteSpaceChar c = false.
Proof. intros H. charclass. Qed.

(** *** Runs of digits *)

Lemma dropWhile_run (p : N -> bool) (d r : jsstring) :
  Forall (fun c => p c = true) d -> stops p r -> dropWhile p (d ++ r) = r.
Proof.
  intros Hd Hr. induction Hd as [|c d Hc _ IH]; simpl.
  - destruct r as [|c r]; [reflexivity|]. simpl in *. now rewrite Hr.
  - now rewrite Hc.
Qed.

Lemma dropWhile_split (p : N -> bool) (s : jsstring) :
  exists d, Forall (fun c => p c = true) d /\ s = d ++ dropWhile p s /\
            stops p (dropWhile p s).
Proof.
  induction s as [|c s (d & Hd & E & St)]; simpl.
  - exists []. repeat split; constructor.
  - destruct (p c) eqn:Hc.
    + exists (c :: d). repeat split; [now constructor| |exact St].
      simpl. now f_equal.
    + exists []. repeat split; [constructor|]. simpl. exact Hc.
Qed.

Lemma digits1_iff (p : N -> bool) (s r : jsstring) :
  digits1 p s = Some r <->
  exists d, Digits p d /\ s = d ++ r /\ stops p r.
Proof.
  unfold digits1, Digits. split.
  - destruct s as [|c s]; [discriminate|].
    destruct (p c) eqn:Hc; [|discriminate]. intros [= <-].
    destruct (dropWhile_split p s) as (d & Hd & E & St).
    exists (c :: d). repeat split; [discriminate|now constructor| |exact St].
    simpl. now f_equal.
  - intros (d & [Hne Hd] & -> & St).
    destruct d as [|c d]; [contradiction|]. inversion Hd as [|? ? Hc Hd']; subst.
    simpl. rewrite Hc. now rewrite dropWhile_run.
Qed.

Lemma allDigits1_iff (p : N -> bool) (s : jsstring) :
  allDigits1 p s = true <-> Digits p s.
Proof.
  unfold allDigits1. split.
  - destruct (digits1 p s) as [r|] eqn:E; [|discriminate].
    destruct r; [|discriminate]. intros _.
    apply digits1_iff in E as (d & Hd & -> & _). now rewrite app_nil_r.
  - intros Hd.
    assert (E : digits1 p s = Some []).
    { apply digits1_iff. exists s. split; [exact Hd|].
      split; [now rewrite app_nil_r|exact I]. }
    now rewrite E.
Qed.

(** *** Exponents *)

Lemma parseSignedInteger_iff (s : jsstring) :
  parseSignedInteger s = Some [] <-> SignedInteger s.
Proof.
  split.
  - unfold parseSignedInteger. destruct s as [|c s]; [discriminate|].
    destruct (isSign c) eqn:Hs; intros E.
    + apply digits1_iff in E as (d & Hd & -> & _). rewrite app_nil_r.
      now apply SI_signed.
    + apply digits1_iff in E as (d & Hd & -> & _). rewrite app_nil_r.
      now apply SI_plain.
  - intros [d Hd | c d Hc Hd].
    + assert (E : digits1 isDecimalDigit d = Some []).
      { apply digits1_iff. exists d. split; [exact Hd|].
        split; [now rewrite app_nil_r|exact I]. }
      destruct Hd as [Hne Hd]. destruct d as [|c d]; [contradiction|].
      unfold parseSignedInteger. inversion Hd; subst.
      now rewrite digit_not_sign.
    + unfold parseSignedInteger. rewrite Hc.
      apply digits1_iff. exists d. split; [exact Hd|].
      split; [now rewrite app_nil_r|exact I].
Qed.

Lemma skipExponentPart_iff (e : jsstring) :
  isNil (skipExponentPart e) = true <-> OptExponentPart e.
Proof.
  split.
  - unfold skipExponentPart. destruct e as [|c r]; [constructor|].
    destruct (isExponentIndicator c) eqn:Hc; [|discriminate].
    destruct (parseSignedInteger r) as [r'|] eqn:E; [|discriminate].
    destruct r'; [|discriminate]. intros _.
    apply EP_some; [exact Hc|]. now apply parseSignedInteger_iff.
  - intros [|c si Hc Hsi]; [reflexivity|].
    unfold skipExponentPart. rewrite Hc.
    apply parseSignedInteger_iff in Hsi. now rewrite Hsi.
Qed.

Lemma OptExponentPart_stops (e : jsstring) :
  OptExponentPart e -> stops isDecimalDigit e.
Proof.
  intros [|c si Hc _]; simpl; [exact I|]. now apply indicator_not_digit.
Qed.

(** *** Decimal literals *)

Lemma not_Infinity (c : N) (r : jsstring) :
  c <> 73 -> jsstring_eqb (c :: r) (utf16 "Infinity") = false.
Proof.
  intros H. change (utf16 "Infinity") with [73; 110; 102; 105; 110; 105; 116; 121].
  simpl. apply N.eqb_neq in H. now rewrite H.
Qed.

Lemma digit_not_I (c : N) : isDecimalDigit c = true -> c <> 73.
Proof. intros H. charclass. Qed.

Lemma digits1_run (d r : jsstring) :
  Digits isDecimalDigit d -> stops isDecimalDigit r ->
  digits1 isDecimalDigit (d ++ r) = Some r.
Proof. intros Hd Hr. apply digits1_iff. exists d. auto. Qed.

Lemma Digits_head (p : N -> bool) (d : jsstring) :
  Digits p d -> exists c d', d = c :: d' /\ p c = true.
Proof.
  intros [Hne Hd]. destruct d as [|c d']; [contradiction|].
  inversion Hd; subst. eauto.
Qed.

Lemma isStrUnsignedDecimalLiteral_sound (s : jsstring) :
  isStrUnsignedDecimalLiteral s = true -> StrUnsignedDecimalLiteral s.
Proof.
  unfold isStrUnsignedDecimalLiteral.
  destruct (jsstring_eqb s (utf16 "Infinity")) eqn:EI.
  { apply jsstring_eqb_eq in EI. subst s. intros _. constructor. }
  destruct s as [|c r]; [discriminate|].
  destruct (isDot c) eqn:Hdot.
  - apply isDot_eq in Hdot. subst c.
    destruct (digits1 isDecimalDigit r) as [j|] eqn:E; [|discriminate].
    intros Hn. apply skipExponentPart_iff in Hn.
    apply digits1_iff in E as (f & Hf & -> & _). now apply SUDL_dot.
  - destruct (digits1 isDecimalDigit (c :: r)) as [x|] eqn:E; [|discriminate].
    apply digits1_iff in E as (d & Hd & Es & _). rewrite Es.
    destruct x as [|d' r'].
    + intros _. apply SUDL_int; [exact Hd|constructor].
    + destruct (isDot d') eqn:Hd'.
      * apply isDot_eq in Hd'. subst d'. intros Hn.
        apply skipExponentPart_iff in Hn.
        destruct (dropWhile_split isDecimalDigit r') as (f & Hf & Er & _).
        rewrite Er. now apply SUDL_int_dot.
      * intros Hn. apply skipExponentPart_iff in Hn. now apply SUDL_int.
Qed.

Lemma isStrUnsignedDecimalLiteral_complete (s : jsstring) :
  StrUnsignedDecimalLiteral s -> isStrUnsignedDecimalLiteral s = true.
Proof.
  intros [ | d f e Hd Hf He | f e Hf He | d e Hd He ].
  - reflexivity.
  - destruct (Digits_head _ _ Hd) as (c & d' & Ed & Hc).
    unfold isStrUnsignedDecimalLiteral.
    rewrite (digits1_run d (46 :: f ++ e) Hd) by reflexivity.
    rewrite Ed. simpl app. rewrite not_Infinity by now apply digit_not_I.
    rewrite (digit_not_dot c Hc).
    change (isDot 46) with true. cbv iota.
    rewrite dropWhile_run; [|exact Hf|now apply OptExponentPart_stops].
    now apply skipExponentPart_iff.
  - unfold isStrUnsignedDecimalLiteral.
    rewrite not_Infinity by discriminate.
    change (isDot 46) with true. cbv iota.
    rewrite digits1_run; [|exact Hf|now apply OptExponentPart_stops].
    now apply skipExponentPart_iff.
  - destruct (Digits_head _ _ Hd) as (c & d' & Ed & Hc).
    unfold isStrUnsignedDecimalLiteral.
    rewrite (digits1_run d e Hd) by now apply OptExponentPart_stops.
    rewrite Ed. simpl app. rewrite not_Infinity by now apply digit_not_I.
    rewrite (digit_not_dot c Hc).
    destruct He as [|x si Hx Hsi]; [reflexivity|].
    rewrite (indicator_not_dot x Hx).
    apply skipExponentPart_iff. now constructor.
Qed.

Lemma StrUnsignedDecimalLiteral_head (s : jsstring) :
  StrUnsignedDecimalLiteral s ->
  exists c r, s = c :: r /\ isSign c = false.
Proof.
  intros [ | d f e Hd Hf He | f e Hf He | d e Hd He ].
  - exists 73, [110; 102; 105; 110; 105; 116; 121].
    split; vm_compute; reflexivity.
  - destruct (Digits_head _ _ Hd) as (c & d' & -> & Hc).
    eexists _, _. split; [reflexivity|]. now apply digit_not_sign.
  - exists 46, (f ++ e). split; reflexivity.
  - destruct (Digits_head _ _ Hd) as (c & d' & -> & Hc).
    eexists _, _. split; [reflexivity|]. now apply digit_not_sign.
Qed.

Lemma isStrDecimalLiteral_iff (s : jsstring) :
  isStrDecimalLiteral s = true <-> StrDecimalLiteral s.
Proof.
  unfold isStrDecimalLiteral. split.
  - destruct s as [|c r]; [discriminate|].
    destruct (isSign c) eqn:Hc; intros H;
      apply isStrUnsignedDecimalLiteral_sound in H.
    + now apply SDL_signed.
    + now apply SDL_unsigned.
  - intros [u Hu | c u Hc Hu].
    + destruct (StrUnsignedDecimalLiteral_head u Hu) as (c & r & -> & Hc).
      rewrite Hc. now apply isStrUnsignedDecimalLiteral_complete.
    + rewrite Hc. now apply isStrUnsignedDecimalLiteral_complete.
Qed.

(** *** Binary, octal and hexadecimal literals *)

Lemma isNonDecimalIntegerLiteral_iff (s : jsstring) :
  isNonDecimalIntegerLiteral s = true <-> NonDecimalIntegerLiteral s.
Proof.
  unfold isNonDecimalIntegerLiteral. split.
  - destruct s as [|z [|x r]]; try discriminate.
    rewrite andb_true_iff, N.eqb_eq. intros [-> H].
    destruct ((x =? 98) || (x =? 66)) eqn:Eb.
    { apply NDIL_binary; [|now apply allDigits1_iff].
      apply orb_true_iff in Eb. rewrite !N.eqb_eq in Eb. exact Eb. }
    destruct ((x =? 111) || (x =? 79)) eqn:Eo.
    { apply NDIL_octal; [|now apply allDigits1_iff].
      apply orb_true_iff in Eo. rewrite !N.eqb_eq in Eo. exact Eo. }
    destruct ((x =? 120) || (x =? 88)) eqn:Ex; [|discriminate].
    apply NDIL_hex; [|now apply allDigits1_iff].
    apply orb_true_iff in Ex. rewrite !N.eqb_eq in Ex. exact Ex.
  - intros [x d Hx Hd | x d Hx Hd | x d Hx Hd];
      apply allDigits1_iff in Hd; destruct Hx as [-> | ->]; exact Hd.
Qed.

Lemma isStrNumericLiteral_iff (s : jsstring) :
  isStrNumericLiteral s = true <-> StrNumericLiteral s.
Proof.
  unfold isStrNumericLiteral.
  rewrite orb_true_iff, isStrDecimalLiteral_iff, isNonDecimalIntegerLiteral_iff.
  split.
  - intros [H|H]; [now apply SNL_decimal|now apply SNL_nondecimal].
  - intros [l H|l H]; auto.
Qed.

(** *** White space around a literal *)

Lemma Digits_NoSpace (p : N -> bool) (d : jsstring) :
  (forall c, p c = true -> isHexDigit c = true) -> Digits p d -> NoSpace d.
Proof.
  intros Hp [_ Hd]. eapply Forall_impl; [|exact Hd].
  intros c Hc. cbn in Hc. now apply hex_not_space, Hp.
Qed.

Lemma OptDigits_NoSpace (f : jsstring) : OptDigits isDecimalDigit f -> NoSpace f.
Proof.
  intros Hf. eapply Forall_impl; [|exact Hf].
  intros c Hc. cbn in Hc. now apply hex_not_space, digit_is_hex.
Qed.

Lemma SignedInteger_NoSpace (s : jsstring) : SignedInteger s -> NoSpace s.
Proof.
  intros [d Hd | c d Hc Hd].
  - now apply (Digits_NoSpace isDecimalDigit d digit_is_hex).
  - constructor; [now apply sign_not_space|].
    now apply (Digits_NoSpace isDecimalDigit d digit_is_hex).
Qed.

Lemma OptExponentPart_NoSpace (e : jsstring) : OptExponentPart e -> NoSpace e.
Proof.
  intros [|c si Hc Hsi]; [constructor|].
  constructor; [now apply indicator_not_space|now apply SignedInteger_NoSpace].
Qed.

Lemma StrUnsignedDecimalLiteral_NoSpace (s : jsstring) :
  StrUnsignedDecimalLiteral s -> NoSpace s.
Proof.
  intros [ | d f e Hd Hf He | f e Hf He | d e Hd He ].
  - change (utf16 "Infinity") with [73; 110; 102; 105; 110; 105; 116; 121].
    repeat constructor.
  - apply Forall_app. split;
      [now apply (Digits_NoSpace isDecimalDigit d digit_is_hex)|].
    constructor; [reflexivity|]. apply Forall_app.
    split; [now apply OptDigits_NoSpace|now apply OptExponentPart_NoSpace].
  - constructor; [reflexivity|]. apply Forall_app. split;
      [now apply (Digits_NoSpace isDecimalDigit f digit_is_hex)
      |now apply OptExponentPart_NoSpace].
  - apply Forall_app. split;
      [now apply (Digits_NoSpace isDecimalDigit d digit_is_hex)
      |now apply OptExponentPart_NoSpace].
Qed.

Lemma StrNumericLiteral_NoSpace (l : jsstring) :
  StrNumericLiteral l -> NoSpace l.
Proof.
  intros [l' [u Hu | c u Hc Hu] | l' [x d Hx Hd | x d Hx Hd | x d Hx Hd]].
  - now apply StrUnsignedDecimalLiteral_NoSpace.
  - constructor; [now apply sign_not_space
                 |now apply StrUnsignedDecimalLiteral_NoSpace].
  - constructor; [reflexivity|].
    constructor; [destruct Hx as [-> | ->]; reflexivity|].
    now apply (Digits_NoSpace isBinaryDigit d binary_is_hex).
  - constructor; [reflexivity|].
    constructor; [destruct Hx as [-> | ->]; reflexivity|].
    now apply (Digits_NoSpace isOctalDigit d octal_is_hex).
  - constructor; [reflexivity|].
    constructor; [destruct Hx as [-> | ->]; reflexivity|].
    now apply (Digits_NoSpace isHexDigit d (fun c H => H)).
Qed.

Lemma StrNumericLiteral_nonempty (l : jsstring) : StrNumericLiteral l -> l <> [].
Proof.
  intros H E. subst l. apply isStrNumericLiteral_iff in H. discriminate H.
Qed.

Lemma trim_literal (w1 l w2 : jsstring) :
  WhiteSpaces w1 -> WhiteSpaces w2 -> StrNumericLiteral l ->
  trim (w1 ++ l ++ w2) = l.
Proof.
  intros H1 H2 Hl.
  pose proof (StrNumericLiteral_NoSpace l Hl) as Hn.
  pose proof (StrNumericLiteral_nonempty l Hl) as Hne.
  destruct l as [|c m]; [contradiction|].
  destruct (exists_last Hne) as (m' & d & E).
  apply (trim_inner w1 w2 (c :: m) c d m); trivial.
  - now inversion Hn.
  - now exists m'.
  - unfold NoSpace in Hn. rewrite Forall_forall in Hn. apply Hn.
    rewrite E. apply in_or_app. right. now left.
Qed.

(** The recogniser accepts exactly the strings of the grammar. *)
Lemma isStringNumericLiteral_iff (s : jsstring) :
  isStringNumericLiteral s = true <-> StringNumericLiteral s.
Proof.
  unfold isStringNumericLiteral. split.
  - destruct (trim s) as [|c t] eqn:E.
    + intros _. apply SNL_blank. now apply trim_nil_iff.
    + intros H. apply isStrNumericLiteral_iff in H.
      destruct (trim_split s) as (w1 & w2 & H1 & H2 & Es).
      rewrite Es, E. now apply SNL_literal.
  - intros [w Hw | w1 l w2 H1 Hl H2].
    + apply trim_nil_iff in Hw. now rewrite Hw.
    + rewrite trim_literal by assumption.
      pose proof (StrNumericLiteral_nonempty l Hl).
      destruct l; [contradiction|]. now apply isStrNumericLiteral_iff.
Qed.

Lemma isNaN_Number_iff (s : jsstring) :
  isNaN_Number s = true <-> ~ parseableAsNumber s.
Proof.
  unfold isNaN_Number, parseableAsNumber.
  rewrite negb_true_iff, <- isStringNumericLiteral_iff.
  destruct (isStringNumericLiteral s); split; congruence.
Qed.

(** ** The validator of the number type *)

Lemma Some_injective {A} (a b : A) : Some a = Some b -> a = b.
Proof. intros H. injection H. trivial. Qed.

Lemma msgRequired_neq_msgNumber : msgRequired <> msgNumber.
Proof. vm_compute. discriminate. Qed.

Lemma validate_number_cases (v : jsstring) :
  (v = [] /\ validate_number v = Some msgRequired) \/
  (v <> [] /\ ~ parseableAsNumber v /\ validate_number v = Some msgNumber) \/
  (v <> [] /\ parseableAsNumber v /\ validate_number v = None).
Proof.
  unfold validate_number.
  destruct (negb (truthyN (length_js v))) eqn:El.
  - left. split; [now apply not_length_iff|reflexivity].
  - right.
    assert (Hne : v <> []).
    { intros E. apply not_length_iff in E. congruence. }
    assert (Ht : truthy v = true) by (destruct v; [contradiction|reflexivity]).
    rewrite Ht. cbn [andb].
    destruct (isNaN_Number v) eqn:En.
    + left. apply isNaN_Number_iff in En. auto.
    + right. repeat split; trivial.
      unfold isNaN_Number in En. apply negb_false_iff in En.
      now apply isStringNumericLiteral_iff.
Qed.

(** C7. The validator registered for [number] returns the required-field
    message exactly for the empty string, the must-be-a-number message
    exactly for the non-empty strings that [Number] does not parse (those
    outside the [StringNumericLiteral] grammar), and null exactly for the
    non-empty strings it parses. For ["abc"] it returns the
    must-be-a-number message and for ["42"] null, also through a value edit
    of a number field. *)
Theorem validate_number_spec (v : jsstring) :
  callValidate tagNumber v = Normal (validate_number v) /\
  (validate_number v = Some msgRequired <-> v = []) /\
  (validate_number v = Some msgNumber <-> v <> [] /\ ~ parseableAsNumber v) /\
  (validate_number v = None <-> v <> [] /\ parseableAsNumber v) /\
  validate_number (utf16 "abc") = Some msgNumber /\
  validate_number (utf16 "42") = None /\
  step (EditValue 1 (utf16 "abc"))
       (App.mk [Field.mk 1 (utf16 "Age") tagNumber [] None] [] tagText [])
    = Normal (App.mk [Field.mk 1 (utf16 "Age") tagNumber (utf16 "abc")
                               (Some msgNumber)] [] tagText []) /\
  step (EditValue 1 (utf16 "42"))
       (App.mk [Field.mk 1 (utf16 "Age") tagNumber (utf16 "abc")
                         (Some msgNumber)] [] tagText [])
    = Normal (App.mk [Field.mk 1 (utf16 "Age") tagNumber (utf16 "42") None]
                     [] tagText []).
Proof.
  split; [vm_compute; reflexivity|].
  assert (Hm : Some msgRequired <> Some msgNumber).
  { intros X. apply msgRequired_neq_msgNumber.
    exact (Some_injective msgRequired msgNumber X). }
  assert (Hr : Some msgRequired <> None) by discriminate.
  assert (Hn : Some msgNumber <> None) by discriminate.
  split; [|split; [|split]].
  - destruct (validate_number_cases v) as [[E H]|[(Hne & Hp & H)|(Hne & Hp & H)]];
      rewrite H; split; intros X.
    + exact E.
    + reflexivity.
    + exfalso. exact (Hm (eq_sym X)).
    + exfalso. exact (Hne X).
    + exfalso. exact (Hr (eq_sym X)).
    + exfalso. exact (Hne X).
  - destruct (validate_number_cases v) as [[E H]|[(Hne & Hp & H)|(Hne & Hp & H)]];
      rewrite H; split; intros X.
    + exfalso. exact (Hm X).
    + exfalso. exact (proj1 X E).
    + exact (conj Hne Hp).
    + reflexivity.
    + exfalso. exact (Hn (eq_sym X)).
    + exfalso. exact (proj2 X Hp).
  - destruct (validate_number_cases v) as [[E H]|[(Hne & Hp & H)|(Hne & Hp & H)]];
      rewrite H; split; intros X.
    + exfalso. exact (Hr X).
    + exfalso. exact (proj1 X E).
    + exfalso. exact (Hn X).
    + exfalso. exact (Hp (proj2 X)).
    + exact (conj Hne Hp).
    + reflexivity.
  - repeat split; vm_compute; reflexivity.
Qed.

(** ** Registered types, apart from the placeholder option

    Every event other than picking the empty option of a field's type
    selector keeps all type tags registered. *)

Lemma offered_key_registered (v : jsstring) :
  existsb (jsstring_eqb v) (keys fieldTypes) = true -> registered v = true.
Proof.
  intros H. apply existsb_exists in H as (k & Hk & E).
  apply jsstring_eqb_eq in E. subst k. apply registered_iff.
  destruct Hk as [<-|[<-|[<-|[]]]]; auto.
Qed.

Lemma mapC_updateOne_types (id : Z) (key : FieldKey) (v : jsstring)
    (fs fs' : list Field) :
  mapC (updateOne id key v) fs = Normal fs' ->
  map Field.type fs' = map Field.type fs.
Proof.
  intros H. apply mapC_Forall2 in H.
  eapply Forall2_map_eq; [|exact H]. cbn. intros f f' Hf.
  unfold updateOne in Hf. destruct (Field.id f =? id)%Z.
  - destruct key; cbn in Hf;
      try (destruct (callValidate (Field.type f) v); cbn in Hf; [|discriminate]);
      now injection Hf as <-.
  - now injection Hf as <-.
Qed.

Lemma saveLoop_types (fs : list Field) (h : bool) (updated : list Field) (h' : bool) :
  saveLoop fs h = Normal (updated, h') ->
  map Field.type updated = map Field.type fs.
Proof.
  intros E. apply saveLoop_spec in E as [F _].
  eapply Forall2_map_eq; [|exact F]. intros a a' (e & _ & ->). reflexivity.
Qed.

Lemma step_typesRegistered (ev : Event) (st st' : AppState) :
  typesRegistered st -> offered ev = true ->
  (forall id, ev <> PickType id []) ->
  step ev st = Normal st' -> typesRegistered st'.
Proof.
  destruct st as [fs L T m]. unfold typesRegistered, step.
  cbn [App.fields App.newFieldType].
  intros [HT Hfs] Hoff Hnot.
  destruct ev as [s|v|now|id v|id answer|id v|id|]; cbn [dispatch].
  - intros [= <-]. now split.
  - intros [= <-]. split; [|exact Hfs]. now apply offered_key_registered.
  - unfold addField. cbn [App.newFieldLabel App.newFieldType].
    destruct (negb (truthy (trim L))); cbn; intros [= <-]; cbn.
    + now split.
    + split; [exact HT|]. rewrite map_app. apply Forall_app.
      split; [exact Hfs|]. now repeat constructor.
  - cbn. destruct (mapC (updateOne id KValue v) fs) as [fs'|] eqn:E;
      cbn; [|discriminate].
    intros [= <-]. cbn. apply mapC_updateOne_types in E. rewrite E. now split.
  - unfold updateLabel.
    destruct answer as [newLabel|]; [destruct (truthy newLabel)|]; cbn;
      try (intros [= <-]; now split).
    destruct (mapC (updateOne id KLabel newLabel) fs) as [fs'|] eqn:E;
      cbn; [|discriminate].
    intros [= <-]. cbn. apply mapC_updateOne_types in E. rewrite E. now split.
  - assert (Hv : registered v = true).
    { cbn [offered] in Hoff. unfold typeOptions in Hoff. cbn [existsb] in Hoff.
      apply orb_true_iff in Hoff as [Hv|Hv];
        [|now apply offered_key_registered].
      apply jsstring_eqb_eq in Hv. subst v. now contradiction (Hnot id). }
    cbn. intros [= <-]. cbn. split; [exact HT|].
    rewrite map_map. clear -Hfs Hv.
    induction fs as [|f fs IH]; cbn; [constructor|].
    inversion Hfs; subst. constructor; [|now apply IH].
    now destruct (Field.id f =? id)%Z.
  - cbn. intros [= <-]. cbn. split; [exact HT|]. clear -Hfs.
    induction fs as [|f fs IH]; cbn; [constructor|].
    inversion Hfs; subst. destruct (keeps id f); cbn; auto.
  - unfold saveForm. cbn [App.fields].
    destruct (saveLoop fs false) as [[updated h]|] eqn:E;
      cbn -[msgInvalid msgSaved]; intros [= <-]; [|now split].
    cbn. apply saveLoop_types in E. rewrite E. now split.
Qed.

(** * Further properties of the handlers and the registry *)

(** ** The validators of the registry *)

Lemma callValidate_text (v : jsstring) :
  callValidate tagText v = Normal (validate_text v).
Proof. vm_compute. reflexivity. Qed.

Lemma callValidate_number (v : jsstring) :
  callValidate tagNumber v = Normal (validate_number v).
Proof. vm_compute. reflexivity. Qed.

Lemma callValidate_select (v : jsstring) :
  callValidate tagSelect v = Normal (validate_select v).
Proof. vm_compute. reflexivity. Qed.

Lemma validate_text_cases (v : jsstring) :
  (v = [] /\ validate_text v = Some msgRequired) \/
  (v <> [] /\ validate_text v = None).
Proof.
  unfold validate_text. destruct (negb (truthyN (length_js v))) eqn:E.
  - left. split; [now apply not_length_iff|reflexivity].
  - right. split; [|reflexivity]. intros Hv. apply not_length_iff in Hv.
    rewrite Hv in E. discriminate E.
Qed.

Lemma Normal_injective {A} (a b : A) : Normal a = Normal b -> a = b.
Proof. intros H. injection H. trivial. Qed.

(** X1. Whatever the registered type, its validator reports the empty
    string as a required field, never reports a non-empty string as
    required, and, for the types other than [number], accepts every
    non-empty string: the select validator does not check that the value is
    one of its options. *)
Theorem registry_required_iff_empty (t : jsstring) :
  registered t = true ->
  callValidate t [] = Normal (Some msgRequired) /\
  (forall v, v <> [] -> callValidate t v <> Normal (Some msgRequired)) /\
  (forall v, v <> [] -> t <> tagNumber -> callValidate t v = Normal None).
Proof.
  intros H. apply registered_iff in H.
  assert (Hm : Some msgNumber <> Some msgRequired).
  { intros X. apply msgRequired_neq_msgNumber. symmetry.
    exact (Some_injective msgNumber msgRequired X). }
  assert (Hn : @None jsstring <> Some msgRequired) by discriminate.
  destruct H as [H|[H|H]]; subst t.
  - split; [vm_compute; reflexivity|]. split; intros v Hv.
    + rewrite callValidate_text. intros X. apply Normal_injective in X.
      destruct (validate_text_cases v) as [[E _]|[_ E]];
        [exact (Hv E)|]. rewrite E in X. exact (Hn X).
    + intros _. rewrite callValidate_text.
      destruct (validate_text_cases v) as [[E _]|[_ E]];
        [contradiction (Hv E)|]. now rewrite E.
  - split; [vm_compute; reflexivity|]. split; intros v Hv.
    + rewrite callValidate_number. intros X. apply Normal_injective in X.
      destruct (validate_number_cases v) as [[E _]|[(_ & _ & E)|(_ & _ & E)]];
        [exact (Hv E)| |]; rewrite E in X; [exact (Hm X)|exact (Hn X)].
    + intros Hne. exfalso. apply Hne. reflexivity.
  - split; [vm_compute; reflexivity|]. split; intros v Hv.
    + rewrite callValidate_select. change validate_select with validate_text.
      intros X. apply Normal_injective in X.
      destruct (validate_text_cases v) as [[E _]|[_ E]];
        [exact (Hv E)|]. rewrite E in X. exact (Hn X).
    + intros _. rewrite callValidate_select. change validate_select with validate_text.
      destruct (validate_text_cases v) as [[E _]|[_ E]];
        [contradiction (Hv E)|]. now rewrite E.
Qed.

(** X1 at the select type and a value outside its options. *)
Lemma registry_required_iff_empty_witness :
  registered tagSelect = true /\
  callValidate tagSelect [] = Normal (Some msgRequired) /\
  callValidate tagSelect (utf16 "Other") = Normal None.
Proof.
  assert (H : registered tagSelect = true) by (vm_compute; reflexivity).
  split; [exact H|]. split.
  - exact (proj1 (registry_required_iff_empty tagSelect H)).
  - apply (proj2 (proj2 (registry_required_iff_empty tagSelect H))).
    + vm_compute. discriminate.
    + vm_compute. discriminate.
Defined.

(** ** White space around a number *)

Lemma trimStart_app_space (s w : jsstring) :
  WhiteSpaces w ->
  trimStart (s ++ w) = match trimStart s with [] => [] | t => t ++ w end.
Proof.
  intros Hw. induction s as [|c s IH]; simpl.
  - now apply trimStart_nil_iff.
  - destruct (isStrWhiteSpaceChar c); [exact IH|reflexivity].
Qed.

Lemma trimEnd_app_space (s w : jsstring) :
  WhiteSpaces w -> trimEnd (s ++ w) = trimEnd s.
Proof.
  intros Hw. unfold trimEnd. rewrite rev_app_distr.
  now rewrite trimStart_whitespace by now apply WhiteSpaces_rev.
Qed.

(** Trimming forgets the white space put around a string. *)
Lemma trim_padding (w1 s w2 : jsstring) :
  WhiteSpaces w1 -> WhiteSpaces w2 -> trim (w1 ++ s ++ w2) = trim s.
Proof.
  intros H1 H2. unfold trim.
  rewrite trimStart_whitespace by assumption.
  rewrite trimStart_app_space by assumption.
  destruct (trimStart s) as [|c t]; [reflexivity|].
  now apply trimEnd_app_space.
Qed.

Lemma validate_number_nonempty (v : jsstring) :
  v <> [] ->
  validate_number v = if isNaN_Number v then Some msgNumber else None.
Proof.
  intros Hv. unfold validate_number.
  destruct (negb (truthyN (length_js v))) eqn:E.
  - apply not_length_iff in E. contradiction.
  - destruct v; [contradiction|reflexivity].
Qed.

(** X2. The number validator looks through surrounding white space: a
    non-empty value padded with white space on either side gets the same
    verdict as the value itself, and a non-empty value made of white space
    only is accepted (it converts to the number 0). *)
Theorem validate_number_padding (w1 s w2 : jsstring) :
  WhiteSpaces w1 -> WhiteSpaces w2 -> s <> [] ->
  validate_number (w1 ++ s ++ w2) = validate_number s /\
  (WhiteSpaces s -> validate_number s = None).
Proof.
  intros H1 H2 Hs. split.
  - assert (Hp : w1 ++ s ++ w2 <> []).
    { intros E. apply app_eq_nil in E as [_ E].
      apply app_eq_nil in E as [E _]. contradiction. }
    rewrite !validate_number_nonempty by assumption.
    unfold isNaN_Number, isStringNumericLiteral.
    now rewrite trim_padding.
  - intros Hw. rewrite validate_number_nonempty by assumption.
    unfold isNaN_Number, isStringNumericLiteral.
    apply trim_nil_iff in Hw. now rewrite Hw.
Qed.

(** X2 at [" 42"] followed by a tab. *)
Lemma validate_number_padding_witness :
  WhiteSpaces [32] /\ WhiteSpaces [9] /\ utf16 "42" <> [] /\
  validate_number ([32] ++ utf16 "42" ++ [9]) = validate_number (utf16 "42").
Proof.
  assert (H1 : WhiteSpaces [32]) by (repeat constructor).
  assert (H2 : WhiteSpaces [9]) by (repeat constructor).
  assert (Hs : utf16 "42" <> []) by (vm_compute; discriminate).
  split; [exact H1|]. split; [exact H2|]. split; [exact Hs|].
  exact (proj1 (validate_number_padding [32] (utf16 "42") [9] H1 H2 Hs)).
Defined.

(** ** Renaming a field *)

Lemma findLabel_absent (id : Z) (fs : list Field) :
  (forall f, In f fs -> Field.id f <> id) -> findLabel id fs = None.
Proof.
  unfold findLabel. induction fs as [|f fs IH]; intros H; simpl; [reflexivity|].
  destruct (Z.eqb_spec (Field.id f) id) as [E|_].
  - exfalso. apply (H f); [now left|exact E].
  - apply IH. intros g Hg. apply H. now right.
Qed.

Lemma findLabel_first (id : Z) (pre post : list Field) (r : Field) :
  (forall f, In f pre -> Field.id f <> id) -> Field.id r = id ->
  findLabel id (pre ++ r :: post) = Some (Field.label r).
Proof.
  unfold findLabel. intros Hpre Hr.
  induction pre as [|f pre IH]; simpl.
  - now rewrite Hr, Z.eqb_refl.
  - destruct (Z.eqb_spec (Field.id f) id) as [E|_].
    + exfalso. apply (Hpre f); [now left|exact E].
    + apply IH. intros g Hg. apply Hpre. now right.
Qed.

(** X3. [updateLabel] opens one prompt, titled with the rename text and
    pre-filled with the label of the first record that has the id (nothing
    when no record has it), and never alerts or throws. A cancelled prompt
    and an empty answer leave the state as it is. Any non-empty answer,
    white space included (the label is not trimmed as it is on add),
    becomes the label of every record with the id, whose id, type, value
    and error are kept, as are all other records. *)
Theorem updateLabel_spec (fs : list Field) (L T m : jsstring) (id : Z)
    (answer : option jsstring) :
  prompts (updateLabel id answer (App.mk fs L T m))
    = [(msgRename, findLabel id fs)] /\
  alerts (updateLabel id answer (App.mk fs L T m)) = [] /\
  result (updateLabel id answer (App.mk fs L T m)) = Normal tt /\
  ((forall f, In f fs -> Field.id f <> id) -> findLabel id fs = None) /\
  (forall pre r post,
     fs = pre ++ r :: post -> (forall f, In f pre -> Field.id f <> id) ->
     Field.id r = id -> findLabel id fs = Some (Field.label r)) /\
  (answer = None \/ answer = Some [] ->
   step (ClickRename id answer) (App.mk fs L T m) = Normal (App.mk fs L T m)) /\
  (forall newLabel,
     answer = Some newLabel -> newLabel <> [] ->
     step (ClickRename id answer) (App.mk fs L T m)
       = Normal (App.mk
           (map (fun f =>
              if (Field.id f =? id)%Z
              then Field.mk (Field.id f) newLabel (Field.type f)
                            (Field.value f) (Field.error f)
              else f) fs) L T m)).
Proof.
  split; [destruct answer as [[|c s]|]; reflexivity|].
  split; [destruct answer as [[|c s]|]; reflexivity|].
  split; [destruct answer as [[|c s]|]; reflexivity|].
  split; [apply findLabel_absent|].
  split; [intros pre r post -> Hpre Hr; now apply findLabel_first|].
  split.
  - intros [-> | ->]; reflexivity.
  - intros newLabel -> Hne. destruct newLabel as [|c s]; [contradiction|].
    unfold step, dispatch, updateLabel. cbn [truthy queued updateField returns].
    cbn [flush applyUpdate App.fields].
    rewrite (mapC_pure _ (fun f =>
      if (Field.id f =? id)%Z
      then Field.mk (Field.id f) (c :: s) (Field.type f)
                    (Field.value f) (Field.error f)
      else f)); [reflexivity|].
    intros f _. unfold updateOne. now destruct (Field.id f =? id)%Z.
Qed.

(** ** Rendering *)

Lemma renderField_registered (f : Field) :
  registered (Field.type f) = true ->
  renderField f = Normal
    (mkRow (Field.id f) (Field.label f)
       (match getProp fieldTypes (Field.type f) with
        | Some cfg => FieldConfig.render cfg (Field.value f)
        | None => InputText []
        end)
       (Field.type f) typeOptions
       (if truthy_opt (Field.error f) then Field.error f else None)).
Proof.
  unfold registered, renderField, callRender.
  destruct (getProp fieldTypes (Field.type f)); [reflexivity|discriminate].
Qed.





Lemma render_defined (st : AppState) :
  Forall (fun f => registered (Field.type f) = true) (App.fields st) ->
  exists view, render st = Normal view.
Proof.
  intros HF. unfold render.
  destruct (mapC_defined renderField (App.fields st)) as [rs E].
  - intros f Hf. rewrite Forall_forall in HF.
    rewrite (renderField_registered f (HF f Hf)). eauto.
  - rewrite E. cbn [bindC]. eauto.
Qed.


Lemma status_colors :
  truthy msgInvalid = true /\ truthy msgSaved = true /\
  includes msgInvalid (utf16 "некорректно") = true /\
  includes msgSaved (utf16 "некорректно") = false.
Proof. repeat split; vm_compute; reflexivity. Qed.

Lemma render_status (fs : list Field) (L T msg : jsstring) (view : View) :
  render (App.mk fs L T msg) = Normal view ->
  statusLine view
    = if truthy msg
      then Some (msg, if includes msg (utf16 "некорректно") then Red else Green)
      else None.
Proof.
  unfold render. cbn [App.fields App.message].
  destruct (mapC renderField fs) as [rs|]; [|discriminate].
  cbn [bindC]. intros X. apply Normal_injective in X. now subst view.
Qed.

(** X5. Saving a collection whose records carry registered types leaves a
    page that renders, and its status line is the invalid-form text in red
    when some record has an error after the save, and the success text in
    green when none has. *)
Theorem saveForm_status_line (fs : list Field) (L T m : jsstring) :
  (forall f, In f fs -> registered (Field.type f) = true) ->
  exists st' view,
    step ClickSave (App.mk fs L T m) = Normal st' /\
    render st' = Normal view /\
    ((statusLine view = Some (msgInvalid, Red) /\
      Exists (fun f => Field.error f <> None) (App.fields st')) \/
     (statusLine view = Some (msgSaved, Green) /\
      Forall (fun f => Field.error f = None) (App.fields st'))).
Proof.
  intros H. destruct (saveLoop_defined fs false H) as (updated & h & E).
  pose proof (saveLoop_types _ _ _ _ E) as Ety.
  destruct (saveLoop_spec _ _ _ _ E) as [_ Hh].
  set (msg := if h then msgInvalid else msgSaved).
  assert (HF : Forall (fun f => registered (Field.type f) = true) updated).
  { assert (HT : Forall (fun t => registered t = true) (map Field.type updated)).
    { rewrite Ety. apply Forall_forall. intros t Ht.
      apply in_map_iff in Ht as (f & <- & Hf). now apply H. }
    clear -HT. induction updated as [|f l IH]; [constructor|].
    inversion HT; subst. constructor; auto. }
  destruct (render_defined (App.mk updated L T msg) HF) as [view Ev].
  exists (App.mk updated L T msg), view.
  split.
  { unfold step, dispatch, saveForm. cbn [App.fields]. rewrite E. reflexivity. }
  split; [exact Ev|].
  apply render_status in Ev. rewrite Ev. cbn [App.fields].
  destruct status_colors as (T1 & T2 & I1 & I2).
  unfold msg. destruct h.
  - left. rewrite T1, I1. split; [reflexivity|].
    destruct Hh as [Hh _]. destruct (Hh eq_refl) as [X|X]; [discriminate X|exact X].
  - right. rewrite T2, I2. split; [reflexivity|].
    apply not_Exists_error. intros X.
    assert (false = true) as Y by (apply Hh; now right). discriminate Y.
Qed.

(** X5 at a collection of one empty text field. *)
Lemma saveForm_status_line_witness :
  (forall f, In f [Field.mk 7 (utf16 "Name") tagText [] None] ->
     registered (Field.type f) = true) /\
  exists st' view,
    step ClickSave (App.mk [Field.mk 7 (utf16 "Name") tagText [] None] [] tagText [])
      = Normal st' /\
    render st' = Normal view /\
    ((statusLine view = Some (msgInvalid, Red) /\
      Exists (fun f => Field.error f <> None) (App.fields st')) \/
     (statusLine view = Some (msgSaved, Green) /\
      Forall (fun f => Field.error f = None) (App.fields st'))).
Proof.
  assert (H : forall f, In f [Field.mk 7 (utf16 "Name") tagText [] None] ->
     registered (Field.type f) = true).
  { intros f [<-|[]]. vm_compute. reflexivity. }
  split; [exact H|].
  exact (saveForm_status_line [Field.mk 7 (utf16 "Name") tagText [] None]
                              [] tagText [] H).
Defined.

(** ** Changing the type, in general *)

(** X6. [updateType] never throws and touches only the type and the value
    of the records that have the id: they get the picked type and an empty
    value and keep their id, label and error; the other records, the size
    and order of the collection, the drafts and the message are unchanged,
    and nothing changes at all when no record has the id. *)
Theorem updateType_frame (fs : list Field) (L T m v : jsstring) (id : Z) :
  exists fs',
    result (updateType v id) = Normal tt /\
    step (PickType id v) (App.mk fs L T m) = Normal (App.mk fs' L T m) /\
    map Field.id fs' = map Field.id fs /\
    map Field.label fs' = map Field.label fs /\
    map Field.error fs' = map Field.error fs /\
    Forall2 (fun f f' =>
      if (Field.id f =? id)%Z
      then Field.type f' = v /\ Field.value f' = []
      else f' = f) fs fs' /\
    ((forall f, In f fs -> Field.id f <> id) -> fs' = fs).
Proof.
  eexists. split; [reflexivity|]. split; [apply updateType_step|].
  repeat split.
  - rewrite map_map. apply map_ext. intros f. now destruct (Field.id f =? id)%Z.
  - rewrite map_map. apply map_ext. intros f. now destruct (Field.id f =? id)%Z.
  - rewrite map_map. apply map_ext. intros f. now destruct (Field.id f =? id)%Z.
  - induction fs as [|f fs IH]; cbn; constructor; [|exact IH].
    destruct (Field.id f =? id)%Z; cbn; auto.
  - intros H. apply map_same. intros f Hf.
    destruct (Z.eqb_spec (Field.id f) id) as [E|_]; [|reflexivity].
    exfalso. exact (H f Hf E).
Qed.

(** ** How the handlers compose *)

(** X7. Adding a field and then removing the id it was given leaves the
    collection without any record of that id; when the clock reading was
    not already the id of a record, this is the collection as it was before
    the add. The draft type and the message are as before and the draft
    label is empty. *)
Theorem add_then_remove (fs : list Field) (L T m : jsstring) (now : Z) :
  trim L <> [] ->
  exists st1,
    step (ClickAdd now) (App.mk fs L T m) = Normal st1 /\
    step (ClickRemove now) st1
      = Normal (App.mk (filter (keeps now) fs) [] T m) /\
    (~ In now (map Field.id fs) ->
     step (ClickRemove now) st1 = Normal (App.mk fs [] T m)).
Proof.
  intros HL.
  assert (E : negb (truthy (trim L)) = false).
  { destruct (negb (truthy (trim L))) eqn:E; [|reflexivity].
    apply blank_label_test, trim_nil_iff in E. contradiction. }
  assert (R : step (ClickRemove now)
                (App.mk (fs ++ [Field.mk now L T [] None]) [] T m)
              = Normal (App.mk (filter (keeps now) fs) [] T m)).
  { rewrite removeField_step. rewrite filter_app. cbn [filter].
    unfold keeps at 2. cbn [Field.id]. rewrite Z.eqb_refl. cbn [negb].
    now rewrite app_nil_r. }
  exists (App.mk (fs ++ [Field.mk now L T [] None]) [] T m).
  split.
  { unfold step, dispatch, addField. cbn [App.newFieldLabel App.newFieldType].
    rewrite E. reflexivity. }
  split; [exact R|].
  intros Hfresh. rewrite R. rewrite filter_same; [reflexivity|].
  intros f Hf. apply keeps_true. intros Hid. apply Hfresh.
  rewrite <- Hid. now apply in_map.
Qed.

(** X7 at the label ["Age"] and an empty collection. *)
Lemma add_then_remove_witness :
  trim (utf16 "Age") <> [] /\
  exists st1,
    step (ClickAdd 5) (App.mk [] (utf16 "Age") tagNumber []) = Normal st1 /\
    step (ClickRemove 5) st1
      = Normal (App.mk (filter (keeps 5) []) [] tagNumber []) /\
    (~ In 5%Z (map Field.id []) ->
     step (ClickRemove 5) st1 = Normal (App.mk [] [] tagNumber [])).
Proof.
  assert (H : trim (utf16 "Age") <> []) by (vm_compute; discriminate).
  split; [exact H|].
  exact (add_then_remove [] (utf16 "Age") tagNumber [] 5 H).
Defined.

(** The updater of a value edit, on records of registered types, is a
    plain map. *)
Lemma updateField_value_map (id : Z) (v : jsstring) (fs : list Field) :
  (forall f, In f fs -> Field.id f = id -> registered (Field.type f) = true) ->
  mapC (updateOne id KValue v) fs
    = Normal (map (fun f =>
        if (Field.id f =? id)%Z
        then match getProp fieldTypes (Field.type f) with
             | Some cfg => Field.mk (Field.id f) (Field.label f) (Field.type f) v
                                    (FieldConfig.validate cfg v)
             | None => f
             end
        else f) fs).
Proof.
  intros H. apply mapC_pure. intros f Hf. unfold updateOne.
  destruct (Z.eqb_spec (Field.id f) id) as [E|_]; [|reflexivity].
  specialize (H f Hf E). unfold registered in H. unfold callValidate.
  destruct (getProp fieldTypes (Field.type f)); [reflexivity|discriminate].
Qed.

(** X8. Of two value edits of the same field the last one wins: on records
    of registered types, editing to [v1] and then to [v2] gives the state
    that editing to [v2] alone gives, value and error included. *)
Theorem edit_last_wins (fs : list Field) (L T m : jsstring) (id : Z)
    (v1 v2 : jsstring) :
  (forall f, In f fs -> Field.id f = id -> registered (Field.type f) = true) ->
  exists st1 st2,
    step (EditValue id v1) (App.mk fs L T m) = Normal st1 /\
    step (EditValue id v2) st1 = Normal st2 /\
    step (EditValue id v2) (App.mk fs L T m) = Normal st2.
Proof.
  intros H.
  pose (g := fun (v : jsstring) (f : Field) =>
    if (Field.id f =? id)%Z
    then match getProp fieldTypes (Field.type f) with
         | Some cfg => Field.mk (Field.id f) (Field.label f) (Field.type f) v
                                (FieldConfig.validate cfg v)
         | None => f
         end
    else f).
  assert (Hg : forall v f, Field.id (g v f) = Field.id f /\
                           Field.type (g v f) = Field.type f).
  { intros v f. unfold g. destruct (Field.id f =? id)%Z; [|now split].
    destruct (getProp fieldTypes (Field.type f)); now split. }
  assert (H1 : forall f, In f (map (g v1) fs) -> Field.id f = id ->
                         registered (Field.type f) = true).
  { intros f Hf Hid. apply in_map_iff in Hf as (f0 & <- & Hf0).
    destruct (Hg v1 f0) as [Ei Et]. rewrite Et. apply (H f0 Hf0).
    now rewrite <- Ei. }
  exists (App.mk (map (g v1) fs) L T m), (App.mk (map (g v2) fs) L T m).
  unfold step, dispatch, updateField. cbn [queued returns flush applyUpdate App.fields
    App.newFieldLabel App.newFieldType App.message].
  rewrite (updateField_value_map id v1 fs H).
  rewrite (updateField_value_map id v2 fs H).
  rewrite (updateField_value_map id v2 (map (g v1) fs) H1).
  cbn [bindC]. fold (g v1) (g v2). repeat split.
  rewrite map_map. f_equal. f_equal. apply map_ext. intros f.
  unfold g. destruct (Field.id f =? id)%Z eqn:Ei; [|now rewrite Ei].
  destruct (getProp fieldTypes (Field.type f)) as [cfg|] eqn:Ec.
  - cbn [Field.id Field.type Field.label]. now rewrite Ei, Ec.
  - now rewrite Ei, Ec.
Qed.

(** X8 at a number field edited to ["4x"] and then to ["42"]. *)
Lemma edit_last_wins_witness :
  (forall f, In f [Field.mk 7 (utf16 "Age") tagNumber [] None] ->
     Field.id f = 7%Z -> registered (Field.type f) = true) /\
  exists st1 st2,
    step (EditValue 7 (utf16 "4x"))
         (App.mk [Field.mk 7 (utf16 "Age") tagNumber [] None] [] tagText [])
      = Normal st1 /\
    step (EditValue 7 (utf16 "42")) st1 = Normal st2 /\
    step (EditValue 7 (utf16 "42"))
         (App.mk [Field.mk 7 (utf16 "Age") tagNumber [] None] [] tagText [])
      = Normal st2.
Proof.
  assert (H : forall f, In f [Field.mk 7 (utf16 "Age") tagNumber [] None] ->
     Field.id f = 7%Z -> registered (Field.type f) = true).
  { intros f [<-|[]] _. vm_compute. reflexivity. }
  split; [exact H|].
  exact (edit_last_wins [Field.mk 7 (utf16 "Age") tagNumber [] None]
                        [] tagText [] 7 (utf16 "4x") (utf16 "42") H).
Defined.

(** ** Saving twice *)

Lemma setError_same (f : Field) : setError (Field.error f) f = f.
Proof. now destruct f. Qed.

Lemma saveLoop_fixed (l : list Field) (h : bool) :
  Forall (fun f =>
    callValidate (Field.type f) (Field.value f) = Normal (Field.error f)) l ->
  saveLoop l h
    = Normal (l, h || existsb (fun f => truthy_opt (Field.error f)) l).
Proof.
  intros H. revert h. induction H as [|f l Hf _ IH]; intros h; simpl.
  - now rewrite orb_false_r.
  - rewrite Hf. cbn [bindC]. rewrite IH. cbn [bindC fst snd].
    rewrite setError_same. f_equal. f_equal.
    destruct (truthy_opt (Field.error f)), h; reflexivity.
Qed.

Lemma saveLoop_result (fs : list Field) (h : bool) (updated : list Field) (h' : bool) :
  saveLoop fs h = Normal (updated, h') ->
  Forall (fun f =>
    callValidate (Field.type f) (Field.value f) = Normal (Field.error f)) updated /\
  h' = h || existsb (fun f => truthy_opt (Field.error f)) updated.
Proof.
  revert h updated h'; induction fs as [|f fs IH]; simpl; intros h updated h' H.
  - injection H as <- <-. split; [constructor|]. now rewrite orb_false_r.
  - destruct (callValidate (Field.type f) (Field.value f)) as [e|] eqn:Ee;
      cbn in H; [|discriminate].
    destruct (saveLoop fs (if truthy_opt e then true else h)) as [[u hu]|] eqn:El;
      cbn in H; [|discriminate].
    injection H as <- <-. destruct (IH _ _ _ El) as [F ->]. split.
    + constructor; [exact Ee|exact F].
    + cbn. destruct (truthy_opt e), h; reflexivity.
Qed.

(** X9. Saving is idempotent on every state: a second save right after a
    save changes nothing, neither an error nor the message. After a save
    that did not throw, every record's error is what the validator of its
    type, as held by the registry, returns for its value. *)
Theorem saveForm_idempotent (st : AppState) :
  exists st1,
    step ClickSave st = Normal st1 /\
    step ClickSave st1 = Normal st1 /\
    (result (saveForm st) = Normal tt ->
     Forall (fun f => exists cfg,
       getProp fieldTypes (Field.type f) = Some cfg /\
       Field.error f = FieldConfig.validate cfg (Field.value f))
       (App.fields st1)).
Proof.
  destruct st as [fs L T m]. unfold step, dispatch, saveForm. cbn [App.fields].
  destruct (saveLoop fs false) as [[updated h]|e] eqn:E.
  - destruct (saveLoop_result _ _ _ _ E) as [F Hh].
    exists (App.mk updated L T (if h then msgInvalid else msgSaved)).
    split; [reflexivity|]. cbn [App.fields]. split.
    2:{ intros _. eapply Forall_impl; [|exact F]. cbn. intros f Hf.
        apply callValidate_registry in Hf as (cfg & Ec & Ee). eauto. }
    rewrite (saveLoop_fixed updated false F). cbn [orb] in *. rewrite <- Hh.
    reflexivity.
  - exists (App.mk fs L T m). split; [reflexivity|]. cbn [App.fields].
    rewrite E. split; [reflexivity|]. cbn [result]. intros X. discriminate X.
Qed.

(** ** Which handler writes which cell *)

Ltac frame_cases :=
  repeat split;
  try (intros [[? X]|[? X]]; discriminate X);
  try (intros X; exfalso; eapply X; reflexivity);
  try (intros _ X; exfalso; eapply X; reflexivity).

(** X10. Each state cell has its own writers. The message is written by
    [saveForm] only, so it stays on screen through later edits; the draft
    type by the type selector of the add form only; the draft label by its
    input and by [addField] only; and typing a draft label or picking a
    draft type leaves the collection alone. *)
Theorem cells_written_by (ev : Event) (st st' : AppState) :
  step ev st = Normal st' ->
  (ev <> ClickSave -> App.message st' = App.message st) /\
  ((forall v, ev <> PickNewType v) ->
   App.newFieldType st' = App.newFieldType st) /\
  ((forall s, ev <> TypeLabel s) -> (forall now, ev <> ClickAdd now) ->
   App.newFieldLabel st' = App.newFieldLabel st) /\
  ((exists s, ev = TypeLabel s) \/ (exists v, ev = PickNewType v) ->
   App.fields st' = App.fields st).
Proof.
  destruct st as [fs L T m]. unfold step.
  destruct ev as [s|v|now|id v|id answer|id v|id|]; cbn [dispatch].
  - intros [= <-]. frame_cases.
  - intros [= <-]. frame_cases.
  - unfold addField. cbn [App.newFieldLabel App.newFieldType].
    destruct (negb (truthy (trim L))); cbn; intros [= <-]; cbn; frame_cases.
  - cbn. destruct (mapC (updateOne id KValue v) fs) as [fs'|]; cbn; [|discriminate].
    intros [= <-]. cbn. frame_cases.
  - unfold updateLabel.
    destruct answer as [newLabel|]; [destruct (truthy newLabel)|]; cbn;
      try (intros [= <-]; frame_cases).
    destruct (mapC (updateOne id KLabel newLabel) fs) as [fs'|]; cbn; [|discriminate].
    intros [= <-]. cbn. frame_cases.
  - cbn. intros [= <-]. cbn. frame_cases.
  - cbn. intros [= <-]. cbn. frame_cases.
  - unfold saveForm. cbn [App.fields].
    destruct (saveLoop fs false) as [[updated h]|];
      cbn -[msgInvalid msgSaved]; intros [= <-]; cbn -[msgInvalid msgSaved];
      frame_cases.
Qed.

(** X10 at a value edit made after a successful save: the success message
    stays although the field is now in error. *)
Lemma cells_written_by_witness :
  step (EditValue 1 [])
       (App.mk [Field.mk 1 (utf16 "Name") tagText (utf16 "a") None]
               [] tagText msgSaved)
    = Normal (App.mk [Field.mk 1 (utf16 "Name") tagText [] (Some msgRequired)]
                     [] tagText msgSaved) /\
  App.message (App.mk [Field.mk 1 (utf16 "Name") tagText [] (Some msgRequired)]
                      [] tagText msgSaved)
    = App.message (App.mk [Field.mk 1 (utf16 "Name") tagText (utf16 "a") None]
                          [] tagText msgSaved).
Proof.
  assert (S : step (EditValue 1 [])
       (App.mk [Field.mk 1 (utf16 "Name") tagText (utf16 "a") None]
               [] tagText msgSaved)
    = Normal (App.mk [Field.mk 1 (utf16 "Name") tagText [] (Some msgRequired)]
                     [] tagText msgSaved)) by (vm_compute; reflexivity).
  split; [exact S|].
  apply (proj1 (cells_written_by _ _ _ S)). discriminate.
Defined.

(** ** Invariants of a session *)

Lemma callValidate_known (t v : jsstring) (e : option jsstring) :
  callValidate t v = Normal e -> knownError e.
Proof.
  unfold callValidate. destruct (getProp fieldTypes t) as [cfg|] eqn:E;
    [|discriminate].
  intros X. apply Normal_injective in X. subst e. unfold knownError.
  destruct (fieldTypes_cases t cfg E) as [-> | [-> | ->]];
    unfold validate_text, validate_number, validate_select;
    repeat match goal with |- context [if ?b then _ else _] => destruct b end;
    match goal with
    | |- None = _ \/ _ => left; reflexivity
    | |- Some msgRequired = _ \/ _ => right; left; reflexivity
    | |- Some msgNumber = _ \/ _ => right; right; reflexivity
    end.
Qed.

Lemma updateOne_known (id : Z) (key : FieldKey) (v : jsstring) (f f' : Field) :
  key <> KError -> updateOne id key v f = Normal f' ->
  knownError (Field.error f) -> knownError (Field.error f').
Proof.
  intros Hk H Hf. unfold updateOne in H. destruct (Field.id f =? id)%Z.
  - destruct key; [| |contradiction].
    + apply Normal_injective in H. now subst f'.
    + destruct (callValidate (Field.type f) v) as [e|] eqn:E; cbn in H;
        [|discriminate].
      apply Normal_injective in H. subst f'. cbn.
      now apply callValidate_known in E.
  - apply Normal_injective in H. now subst f'.
Qed.

Lemma Forall2_Forall_known (R : Field -> Field -> Prop) (l l' : list Field) :
  (forall f f', R f f' -> knownError (Field.error f) -> knownError (Field.error f')) ->
  Forall2 R l l' ->
  Forall (fun f => knownError (Field.error f)) l ->
  Forall (fun f => knownError (Field.error f)) l'.
Proof.
  intros HR H. induction H as [|f f' l l' Hf _ IH]; intros HF; [constructor|].
  inversion HF; subst. constructor; [now apply (HR f f')|now apply IH].
Qed.

Lemma step_knownErrors (ev : Event) (st st' : AppState) :
  Forall (fun f => knownError (Field.error f)) (App.fields st) ->
  step ev st = Normal st' ->
  Forall (fun f => knownError (Field.error f)) (App.fields st').
Proof.
  destruct st as [fs L T m]. unfold step. cbn [App.fields]. intros HF.
  destruct ev as [s|v|now|id v|id answer|id v|id|]; cbn [dispatch].
  - now intros [= <-].
  - now intros [= <-].
  - unfold addField. cbn [App.newFieldLabel App.newFieldType].
    destruct (negb (truthy (trim L))); cbn; intros [= <-]; cbn; [exact HF|].
    apply Forall_app. split; [exact HF|]. constructor; [|constructor].
    now left.
  - cbn. destruct (mapC (updateOne id KValue v) fs) as [fs'|] eqn:E;
      cbn; [|discriminate].
    intros [= <-]. cbn. apply mapC_Forall2 in E.
    eapply Forall2_Forall_known; [|exact E|exact HF].
    intros f f'. cbn. apply updateOne_known. discriminate.
  - unfold updateLabel.
    destruct answer as [newLabel|]; [destruct (truthy newLabel)|]; cbn;
      try (now intros [= <-]).
    destruct (mapC (updateOne id KLabel newLabel) fs) as [fs'|] eqn:E;
      cbn; [|discriminate].
    intros [= <-]. cbn. apply mapC_Forall2 in E.
    eapply Forall2_Forall_known; [|exact E|exact HF].
    intros f f'. cbn. apply updateOne_known. discriminate.
  - cbn. intros [= <-]. cbn. clear -HF.
    induction fs as [|f fs IH]; cbn; [constructor|].
    inversion HF; subst. constructor; [|now apply IH].
    now destruct (Field.id f =? id)%Z.
  - cbn. intros [= <-]. cbn. clear -HF.
    induction fs as [|f fs IH]; cbn; [constructor|].
    inversion HF; subst. destruct (keeps id f); auto.
  - unfold saveForm. cbn [App.fields].
    destruct (saveLoop fs false) as [[updated h]|] eqn:E;
      cbn -[msgInvalid msgSaved]; intros [= <-]; [|exact HF].
    cbn. apply saveLoop_spec in E as [F _].
    eapply Forall2_Forall_known; [|exact F|exact HF].
    intros f f' (e & He & ->) _. cbn. now apply callValidate_known in He.
Qed.

(** X11. In every state a session can reach, the error of each record is
    null, the required-field message or the must-be-a-number message:
    nothing else is ever stored, in particular never the empty string, so
    an error is displayed exactly when it is not null. *)
Theorem reachable_errors (st : AppState) :
  reachable st ->
  Forall (fun f => knownError (Field.error f)) (App.fields st) /\
  Forall (fun f => truthy_opt (Field.error f) = true <-> Field.error f <> None)
         (App.fields st).
Proof.
  intros R.
  assert (H : Forall (fun f => knownError (Field.error f)) (App.fields st)).
  { induction R as [|ev st st' _ IH _ _ Hstep]; [constructor|].
    now apply (step_knownErrors ev st st'). }
  split; [exact H|]. eapply Forall_impl; [|exact H]. cbn. intros f Hf.
  destruct Hf as [E|[E|E]]; rewrite E.
  - split; [discriminate|]. intros X. now contradiction X.
  - split; [discriminate|]. intros _. vm_compute. reflexivity.
  - split; [discriminate|]. intros _. vm_compute. reflexivity.
Qed.

(** X11 after adding a field and saving. *)
Lemma reachable_errors_witness :
  reachable (App.mk [Field.mk 1 (utf16 "Name") tagText [] (Some msgRequired)]
                    [] tagText msgInvalid) /\
  Forall (fun f => knownError (Field.error f))
         [Field.mk 1 (utf16 "Name") tagText [] (Some msgRequired)].
Proof.
  assert (R : reachable
    (App.mk [Field.mk 1 (utf16 "Name") tagText [] (Some msgRequired)]
            [] tagText msgInvalid)).
  { apply (session_reachable
      [TypeLabel (utf16 "Name"); ClickAdd 1; ClickSave] initialState);
      [exact reach_init | vm_compute; reflexivity]. }
  split; [exact R|].
  exact (proj1 (reachable_errors _ R)).
Defined.

Lemma offered_type_possible (v : jsstring) :
  existsb (jsstring_eqb v) typeOptions = true -> possibleType v.
Proof.
  unfold typeOptions. cbn [existsb]. intros H.
  apply orb_true_iff in H as [H|H].
  - right. now apply jsstring_eqb_eq in H.
  - left. now apply offered_key_registered.
Qed.

Lemma step_possibleTypes (ev : Event) (st st' : AppState) :
  registered (App.newFieldType st) = true ->
  Forall possibleType (map Field.type (App.fields st)) ->
  offered ev = true -> step ev st = Normal st' ->
  registered (App.newFieldType st') = true /\
  Forall possibleType (map Field.type (App.fields st')).
Proof.
  destruct st as [fs L T m]. unfold step.
  cbn [App.fields App.newFieldType]. intros HT Hfs Hoff.
  destruct ev as [s|v|now|id v|id answer|id v|id|]; cbn [dispatch].
  - intros [= <-]. now split.
  - intros [= <-]. split; [|exact Hfs]. now apply offered_key_registered.
  - unfold addField. cbn [App.newFieldLabel App.newFieldType].
    destruct (negb (truthy (trim L))); cbn; intros [= <-]; cbn.
    + now split.
    + split; [exact HT|]. rewrite map_app. apply Forall_app.
      split; [exact Hfs|]. constructor; [now left|constructor].
  - cbn. destruct (mapC (updateOne id KValue v) fs) as [fs'|] eqn:E;
      cbn; [|discriminate].
    intros [= <-]. cbn. apply mapC_updateOne_types in E. rewrite E. now split.
  - unfold updateLabel.
    destruct answer as [newLabel|]; [destruct (truthy newLabel)|]; cbn;
      try (intros [= <-]; now split).
    destruct (mapC (updateOne id KLabel newLabel) fs) as [fs'|] eqn:E;
      cbn; [|discriminate].
    intros [= <-]. cbn. apply mapC_updateOne_types in E. rewrite E. now split.
  - assert (Hv : possibleType v) by now apply offered_type_possible.
    cbn. intros [= <-]. cbn. split; [exact HT|].
    rewrite map_map. clear -Hfs Hv.
    induction fs as [|f fs IH]; cbn; [constructor|].
    inversion Hfs; subst. constructor; [|now apply IH].
    now destruct (Field.id f =? id)%Z.
  - cbn. intros [= <-]. cbn. split; [exact HT|]. clear -Hfs.
    induction fs as [|f fs IH]; cbn; [constructor|].
    inversion Hfs; subst. destruct (keeps id f); cbn; auto.
  - unfold saveForm. cbn [App.fields].
    destruct (saveLoop fs false) as [[updated h]|] eqn:E;
      cbn -[msgInvalid msgSaved]; intros [= <-]; [|now split].
    cbn. apply saveLoop_types in E. rewrite E. now split.
Qed.

(** X12. In every state a session can reach, the draft type is a
    registered tag, so a record is always created with a registered type,
    and the type of a record is a registered tag or the empty string of the
    placeholder option, the only other value the page can deliver. While
    the page is mounted every type in the state is registered. *)
Theorem reachable_types (st : AppState) :
  reachable st ->
  registered (App.newFieldType st) = true /\
  Forall possibleType (map Field.type (App.fields st)) /\
  (mounted st = true -> typesRegistered st).
Proof.
  intros R.
  assert (H : registered (App.newFieldType st) = true /\
              Forall possibleType (map Field.type (App.fields st))).
  { induction R as [|ev st st' _ [IH1 IH2] _ Hoff Hstep].
    - split; [vm_compute; reflexivity|constructor].
    - now apply (step_possibleTypes ev st st'). }
  destruct H as [H1 H2]. split; [exact H1|]. split; [exact H2|].
  intros M. split; [exact H1|].
  apply Forall_forall. intros t Ht. apply in_map_iff in Ht as (f & <- & Hf).
  now apply (mounted_registered st M).
Qed.

(** X12 after adding a number field. *)
Lemma reachable_types_witness :
  reachable (App.mk [Field.mk 1 (utf16 "Age") tagNumber [] None]
                    [] tagNumber []) /\
  registered tagNumber = true.
Proof.
  assert (R : reachable
    (App.mk [Field.mk 1 (utf16 "Age") tagNumber [] None] [] tagNumber [])).
  { apply (session_reachable
      [PickNewType tagNumber; TypeLabel (utf16 "Age"); ClickAdd 1] initialState);
      [exact reach_init | vm_compute; reflexivity]. }
  split; [exact R|].
  exact (proj1 (reachable_types _ R)).
Defined.
